(** * protocolos.py: text extraction, key/value parsing and template filling

    A shallow embedding of [src/protocolos.py] and the properties of its
    three functions [extract_text], [parse_key_values] and
    [fill_template_with_values].

    Python strings are sequences of Unicode code points; they are modelled
    as lists of code points ([N]).  A [dict] keeps its insertion order, which
    is the order in which [values.items()] is traversed, so it is modelled as
    an association list with unique keys.  The documents of python-docx are
    mutable object graphs: paragraphs live in a store and the document, its
    sections and its table cells refer to them by index, so that a paragraph
    listed twice (a merged cell, a header shared by two sections) is one
    object.  Assigning the text of a paragraph is a call into the library,
    which may refuse the string or store another one: the filling is given
    once over a library that stores every string as it is, and once, in
    module [Lib], over any assignment, with the one of python-docx as
    [docx_assign]. *)

From Stdlib Require Import NArith Strings.String Strings.Ascii.
From stdpp Require Import base decidable option numbers list.

Local Open Scope N_scope.

(** ** Python strings and the built-in methods the program calls *)

Module Py.

Definition str := list N.

(** An ASCII literal as a Python string. *)
Definition of_string (s : string) : str :=
  map N_of_ascii (list_ascii_of_string s).
Arguments of_string s%_string.

(** Truth value of a string: empty strings are falsy. *)
Definition truthy (s : str) : bool :=
  match s with [] => false | _ :: _ => true end.

(** [str.isspace] on one code point (the characters [str.strip()] removes). *)
Definition isspace (c : N) : bool :=
  ((9 <=? c) && (c <=? 13)) || ((28 <=? c) && (c <=? 32))
  || (c =? 133) || (c =? 160) || (c =? 5760)
  || ((8192 <=? c) && (c <=? 8202))
  || (c =? 8232) || (c =? 8233) || (c =? 8239) || (c =? 8287)
  || (c =? 12288).
Arguments isspace : simpl never.

(** The line boundaries of [str.splitlines]. *)
Definition islinebreak (c : N) : bool :=
  ((10 <=? c) && (c <=? 13)) || ((28 <=? c) && (c <=? 30))
  || (c =? 133) || (c =? 8232) || (c =? 8233).
Arguments islinebreak : simpl never.

Fixpoint lstrip (s : str) : str :=
  match s with
  | [] => []
  | c :: s' => if isspace c then lstrip s' else s
  end.

Definition rstrip (s : str) : str := rev (lstrip (rev s)).

Definition strip (s : str) : str := rstrip (lstrip s).

(** [s.startswith(pre)] *)
Fixpoint startswith (s pre : str) {struct pre} : bool :=
  match pre, s with
  | [], _ => true
  | _ :: _, [] => false
  | p :: pre', c :: s' => (c =? p) && startswith s' pre'
  end.

(** [s.find(sub)], with [None] for Python's -1. *)
Fixpoint find (s sub : str) : option nat :=
  if startswith s sub then Some 0%nat
  else match s with
       | [] => None
       | _ :: s' => S <$> find s' sub
       end.

(** [sub in s] *)
Definition str_in (sub s : str) : bool :=
  match find s sub with Some _ => true | None => false end.

(** [s.split(sep, 1)] for a non-empty separator. *)
Definition split1 (s sep : str) : list str :=
  match find s sep with
  | None => [s]
  | Some i => [take i s; drop (i + length sep) s]
  end.

(** The scan of [s.replace(old, new)] for a non-empty [old]: occurrences are
    taken from left to right and do not overlap; [skip] counts the characters
    of a matched occurrence that are still to be passed over. *)
Fixpoint replace_scan (old new : str) (skip : nat) (s : str) : str :=
  match s with
  | [] => []
  | c :: s' =>
      match skip with
      | S k => replace_scan old new k s'
      | O => if startswith s old
             then new ++ replace_scan old new (length old - 1) s'
             else c :: replace_scan old new O s'
      end
  end.

(** [s.replace(old, new)]; an empty [old] matches before every character and
    at the end. *)
Definition replace (s old new : str) : str :=
  match old with
  | [] => new ++ flat_map (fun c => c :: new) s
  | _ :: _ => replace_scan old new O s
  end.

(** [sep.join(parts)] *)
Fixpoint join (sep : str) (parts : list str) : str :=
  match parts with
  | [] => []
  | [x] => x
  | x :: rest => x ++ sep ++ join sep rest
  end.

(** [s.splitlines()]: [cur] is the current line, reversed.  A carriage
    return followed by a line feed is one boundary, and a boundary at the
    very end opens no further line. *)
Fixpoint splitlines_from (cur : str) (s : str) : list str :=
  match s with
  | [] => match cur with [] => [] | _ :: _ => [rev cur] end
  | c :: s' =>
      if islinebreak c then
        rev cur ::
          match s' with
          | c' :: s'' =>
              if (c =? 13) && (c' =? 10) then splitlines_from [] s''
              else splitlines_from [] s'
          | [] => []
          end
      else splitlines_from (c :: cur) s'
  end.

Definition splitlines (s : str) : list str := splitlines_from [] s.

(** [str.lower]: code points below 128 are mapped one by one; a string with
    other code points goes through the Unicode case tables, which are not
    part of the program and are taken as a parameter. *)
Definition lower_ascii (c : N) : N :=
  if (65 <=? c) && (c <=? 90) then c + 32 else c.

Definition lower (unicode_lower : str -> str) (s : str) : str :=
  if forallb (fun c => c <? 128) s then map lower_ascii s
  else unicode_lower s.

(** A [dict] of strings in insertion order. *)
Definition dict := list (str * str).

(** [d[k] = v]: an existing key keeps its place. *)
Fixpoint dict_set (d : dict) (k v : str) : dict :=
  match d with
  | [] => [(k, v)]
  | (k', v') :: d' =>
      if decide (k' = k) then (k', v) :: d'
      else (k', v') :: dict_set d' k v
  end.

(** [d.get(k)] *)
Fixpoint dict_get (d : dict) (k : str) : option str :=
  match d with
  | [] => None
  | (k', v') :: d' => if decide (k' = k) then Some v' else dict_get d' k
  end.

End Py.

Import Py.

Notation "'py' s" := (of_string s) (at level 1, s at level 0, format "'py'  s").

Definition LF : str := [10].

(** ** Key/value parsing *)

(** The body of the loop of [parse_key_values], for one line. *)
Definition parse_line (pairs : dict) (line : str) : dict :=
  let cleaned := strip line in
  if negb (truthy cleaned) || startswith cleaned (py "#") then pairs
  else if negb (str_in (py ":") cleaned) then pairs
  else
    match split1 cleaned (py ":") with
    | [key; value] =>
        let key := strip key in
        let value := strip value in
        if truthy key then dict_set pairs key value else pairs
    | _ => pairs (* not reached: the line contains a colon *)
    end.

Definition parse_key_values (raw_text : str) : dict :=
  foldl parse_line [] (splitlines raw_text).

(** ** Documents

    The object model of python-docx, as far as the program reads and writes
    it.  A paragraph is a sequence of runs; its [text] is the concatenation
    of the texts of the runs, and assigning [text] leaves a single run.
    [set_text] is the assignment of a library that stores every string as it
    is given; what python-docx on top of lxml does with a string (refuse it,
    or store a carriage return as a line break) is [docx_assign] further
    down, and the program over any such assignment is module [Lib].  The
    paragraph objects of a document are kept
    in [doc_store]; every list of paragraphs the program iterates over is a
    list of indices into it, so [row.cells] may list the cell of a merged
    range once per column and two sections may share the paragraphs of a
    header.  An index outside the store stands for no object: its text reads
    as empty and assigning to it does nothing.

    python-docx gives every section a header and a footer; one that the
    file does not define is created, with one empty paragraph, when the
    program reads it.  A document value describes the objects as the
    traversal finds them, so that paragraph is listed like any other, and
    nothing here says which parts the file held before.  [None] is a header
    or footer that tests false, which the program skips. *)

Record Paragraph := { runs : list str }.

Definition text (p : Paragraph) : str := concat (runs p).

Definition set_text (p : Paragraph) (s : str) : Paragraph := {| runs := [s] |}.

Record Cell := { cell_paragraphs : list nat }.
Record Row := { cells : list Cell }.
Record Table := { rows : list Row }.
Record HeaderFooter := { hf_paragraphs : list nat }.
Record DocSection :=
  { header : option HeaderFooter; footer : option HeaderFooter }.

Record DocxDocument := {
  doc_store : list Paragraph;
  doc_paragraphs : list nat;
  doc_sections : list DocSection;
  doc_tables : list Table
}.

Definition with_store (d : DocxDocument) (st : list Paragraph) : DocxDocument :=
  {| doc_store := st;
     doc_paragraphs := doc_paragraphs d;
     doc_sections := doc_sections d;
     doc_tables := doc_tables d |}.

(** [paragraph.text] of the paragraph object at index [i]. *)
Definition text_at (st : list Paragraph) (i : nat) : str :=
  default [] (text <$> st !! i).

(** [cell.text]: the texts of the cell's paragraphs, one per line. *)
Definition cell_text (st : list Paragraph) (c : Cell) : str :=
  join LF (map (text_at st) (cell_paragraphs c)).

(** ** Text extraction from a document (the DOCX branch of [extract_text]) *)

Definition docx_text (document : DocxDocument) : str :=
  let st := doc_store document in
  let paragraphs := map (text_at st) (doc_paragraphs document) in
  let paragraphs :=
    foldl (fun ps table =>
      foldl (fun ps row =>
        foldl (fun ps cell => ps ++ [cell_text st cell]) ps (cells row))
        ps (rows table))
      paragraphs (doc_tables document) in
  join LF (filter (fun s => truthy s = true) paragraphs).

(** [page.extract_text() or ""] for every page, joined (the PDF branch). *)
Definition pdf_text (pages : list (option str)) : str :=
  let pages :=
    foldl (fun acc page =>
      let text := match page with
                  | Some t => if truthy t then t else []
                  | None => []
                  end in
      acc ++ [text]) [] pages in
  join LF pages.

(** ** Template filling *)

Definition placeholder (key : str) : str := py "{{" ++ key ++ py "}}".

(** The inner loop of [_replace_in_paragraphs]: all keys, in the order of
    [values.items()], applied to the text of one paragraph. *)
Definition replace_step (updated : str) (item : str * str) : str :=
  let '(key, value) := item in
  if str_in (placeholder key) updated
  then replace updated (placeholder key) value
  else updated.

Definition replace_all (values : dict) (original : str) : str :=
  foldl replace_step original values.

(** The body of the outer loop: the paragraph is assigned only when its text
    changed. *)
Definition replace_in_paragraph (values : dict) (paragraph : Paragraph) : Paragraph :=
  let original := text paragraph in
  let updated := replace_all values original in
  if decide (updated = original) then paragraph
  else set_text paragraph updated.

Definition _replace_in_paragraphs (paragraphs : list nat) (values : dict)
    (st : list Paragraph) : list Paragraph :=
  foldl (fun st i => alter (replace_in_paragraph values) i st) st paragraphs.

Definition fill_section (values : dict) (st : list Paragraph) (section : DocSection)
    : list Paragraph :=
  let st := match header section with
            | Some h => _replace_in_paragraphs (hf_paragraphs h) values st
            | None => st
            end in
  match footer section with
  | Some f => _replace_in_paragraphs (hf_paragraphs f) values st
  | None => st
  end.

Definition fill_table (values : dict) (st : list Paragraph) (table : Table)
    : list Paragraph :=
  foldl (fun st row =>
    foldl (fun st cell => _replace_in_paragraphs (cell_paragraphs cell) values st)
      st (cells row))
    st (rows table).

(** The part of [fill_template_with_values] between loading and saving. *)
Definition fill_document (document : DocxDocument) (values : dict) : DocxDocument :=
  let st := _replace_in_paragraphs (doc_paragraphs document) values (doc_store document) in
  let st := foldl (fill_section values) st (doc_sections document) in
  let st := foldl (fill_table values) st (doc_tables document) in
  with_store document st.

(** ** The two entry points, with their failures *)

Inductive exn (E : Type) :=
| ImportError (msg : string)
| ValueError (msg : string)
| LibraryError (e : E).
Arguments ImportError {E} msg%_string.
Arguments ValueError {E} msg%_string.
Arguments LibraryError {E} e.

Inductive result (E A : Type) :=
| Ok (a : A)
| Raise (e : exn E).
Arguments Ok {E A} a.
Arguments Raise {E A} e.

Definition bind {E A B} (r : result E A) (k : A -> result E B) : result E B :=
  match r with Ok a => k a | Raise e => Raise e end.

Definition lift {E A} (r : E + A) : result E A :=
  match r with inl e => Raise (LibraryError e) | inr a => Ok a end.

Notation "'perform' x <- r ; k" := (bind r (fun x => k))
  (at level 10, x name, r at level 100, k at level 200).

Section Program.
Context {Buffer E : Type}.

(** The module globals [Document] and [PyPDF2]: [None] when the import
    failed, otherwise the library's reader, which may fail on a malformed
    buffer.  [save] is [document.save] followed by rewinding. *)
Variable Document : option (Buffer -> E + DocxDocument).
Variable PyPDF2 : option (Buffer -> E + list (option str)).
Variable save : DocxDocument -> E + Buffer.
Variable unicode_lower : str -> str.

Definition extract_text (file_buffer : Buffer) (extension : str) : result E str :=
  let extension := lower unicode_lower extension in
  if decide (extension = py "docx") then
    match Document with
    | None => Raise (ImportError "python-docx nao esta instalado.")
    | Some Document =>
        perform document <- lift (Document file_buffer);
        Ok (docx_text document)
    end
  else if decide (extension = py "pdf") then
    match PyPDF2 with
    | None => Raise (ImportError "PyPDF2 nao esta instalado.")
    | Some PdfReader =>
        perform pages <- lift (PdfReader file_buffer);
        Ok (pdf_text pages)
    end
  else Raise (ValueError "Tipo de arquivo nao suportado.").

Definition fill_template_with_values (template_bytes : Buffer) (values : dict)
    : result E Buffer :=
  match Document with
  | None => Raise (ImportError "python-docx nao esta instalado.")
  | Some Document =>
      perform document <- lift (Document template_bytes);
      lift (save (fill_document document values))
  end.

End Program.

(** ** Notions used to state the properties *)

(** A key or a value without the characters [{] and [}]. *)
Definition brace_free (s : str) : bool :=
  forallb (fun c => negb (c =? 123) && negb (c =? 125)) s.

(** The paragraphs [fill_document] goes through, in the order of the
    traversal: body, then header and footer of each section, then the
    cells of each table row by row. *)
Definition section_paragraphs (s : DocSection) : list nat :=
  from_option hf_paragraphs [] (header s) ++ from_option hf_paragraphs [] (footer s).

Definition table_cells (t : Table) : list Cell :=
  r ← rows t; cells r.

Definition reachable (d : DocxDocument) : list nat :=
  doc_paragraphs d
  ++ (s ← doc_sections d; section_paragraphs s)
  ++ (c ← (t ← doc_tables d; table_cells t); cell_paragraphs c).

(** How many times the traversal meets the paragraph object [p]. *)
Definition visits (p : nat) (d : DocxDocument) : nat :=
  length (filter (λ i, i = p) (reachable d)).


(** [replaced old new t t']: [t'] is [t] with the occurrences of [old]
    replaced by [new], the leftmost occurrence first and then those of the
    text after it. *)
Inductive replaced (old new : str) : str → str → Prop :=
| replaced_none t :
    (∀ a b, t ≠ a ++ old ++ b) → replaced old new t t
| replaced_first a b b' :
    (∀ a1 b1, a ++ old ++ b = a1 ++ old ++ b1 → (length a ≤ length a1)%nat) →
    replaced old new b b' →
    replaced old new (a ++ old ++ b) (a ++ new ++ b').

(** One pass over a paragraph text: the placeholder of every key of the
    mapping, in the order of the mapping, replaced by the value of the key. *)
Inductive filled : dict → str → str → Prop :=
| filled_nil t : filled [] t t
| filled_cons k v values t t1 t2 :
    replaced (placeholder k) v t t1 → filled values t1 t2 →
    filled ((k, v) :: values) t t2.


(** A document with one section, no table and the given body paragraphs,
    one run each. *)
Definition plain_document (texts : list str) : DocxDocument :=
  {| doc_store := map (λ t, {| runs := [t] |}) texts;
     doc_paragraphs := seq 0 (length texts);
     doc_sections := [{| header := Some {| hf_paragraphs := [] |};
                         footer := Some {| hf_paragraphs := [] |} |}];
     doc_tables := [] |}.


(** A template text seen as a sequence of literal pieces and placeholders. *)
Inductive segment :=
| Lit (s : str)
| Ph (k : str).

Definition render_segment (seg : segment) : str :=
  match seg with Lit s => s | Ph k => placeholder k end.

Definition render (segs : list segment) : str :=
  concat (map render_segment segs).

(** Literal pieces and keys without braces. *)
Definition segment_ok (seg : segment) : bool :=
  match seg with Lit s => brace_free s | Ph k => brace_free k end.

Definition well_formed (t : str) : Prop :=
  ∃ segs, forallb segment_ok segs = true ∧ t = render segs.

(** The placeholder of a key of the mapping becomes the value of the key. *)
Definition subst_segment (values : dict) (seg : segment) : segment :=
  match seg with
  | Lit s => Lit s
  | Ph k => match dict_get values k with Some v => Lit v | None => Ph k end
  end.

(** Keys and values of a mapping without braces. *)
Definition brace_free_dict (values : dict) : bool :=
  forallb (λ kv, brace_free kv.1 && brace_free kv.2) values.



(** The paragraphs filling is said to reach: those of the body, those of
    the header and of the footer of a section, and those directly in a cell
    of a table. *)
Definition in_scope (d : DocxDocument) (p : nat) : Prop :=
  p ∈ doc_paragraphs d
  ∨ (∃ s h, s ∈ doc_sections d ∧ (header s = Some h ∨ footer s = Some h)
            ∧ p ∈ hf_paragraphs h)
  ∨ (∃ t r c, t ∈ doc_tables d ∧ r ∈ rows t ∧ c ∈ cells r
              ∧ p ∈ cell_paragraphs c).


(** The text of a line before its first colon, the text after it, and
    whether there is a colon at all. *)
Fixpoint before_colon (s : str) : str :=
  match s with
  | [] => []
  | c :: s' => if c =? 58 then [] else c :: before_colon s'
  end.

Fixpoint after_colon (s : str) : str :=
  match s with
  | [] => []
  | c :: s' => if c =? 58 then s' else after_colon s'
  end.

Definition has_colon (s : str) : bool := existsb (λ c, c =? 58) s.

(** The lines that contribute nothing: the trimmed line is empty or starts
    with [#], the line has no colon, or the trimmed key is empty. *)
Definition ignored (line : str) : bool :=
  negb (truthy (strip line))
  || startswith (strip line) (py "#")
  || negb (has_colon line)
  || negb (truthy (strip (before_colon line))).

(** The pair of a line: split at the first colon, both sides trimmed. *)
Definition line_pair (line : str) : str * str :=
  (strip (before_colon line), strip (after_colon line)).

(** The pairs of the lines that are not ignored, in the order of the lines. *)
Definition valid_pairs (lines : list str) : list (str * str) :=
  map line_pair (filter (λ l, ignored l = false) lines).

(** The dict obtained by assigning the pairs one after the other. *)
Definition set_pair (d : dict) (kv : str * str) : dict := dict_set d kv.1 kv.2.

Definition dict_of_pairs (pairs : list (str * str)) : dict :=
  foldl set_pair [] pairs.

(** A single line: a text without line boundary. *)
Definition one_line (s : str) : bool :=
  forallb (λ c, negb (islinebreak c)) s.


(** A document with one body paragraph and one table of one row and one
    cell, the cell holding one paragraph. *)
Definition paragraph_and_cell (a b : str) : DocxDocument :=
  {| doc_store := [{| runs := [a] |}; {| runs := [b] |}];
     doc_paragraphs := [0%nat];
     doc_sections := [{| header := Some {| hf_paragraphs := [] |};
                         footer := Some {| hf_paragraphs := [] |} |}];
     doc_tables := [{| rows := [{| cells := [{| cell_paragraphs := [1%nat] |}] |}] |}] |}.


(** ** Notions used to state the further properties *)

(** What is left of a text after the line boundary [c]: a line feed that
    follows a carriage return belongs to the boundary. *)
Definition after_break (c : N) (s : str) : str :=
  match s with
  | c' :: s'' => if (c =? 13) && (c' =? 10) then s'' else s
  | [] => []
  end.

(** A string without surrounding whitespace. *)
Definition trimmed (s : str) : Prop := strip s = s.

(** [page.extract_text() or ""] *)
Definition page_text (page : option str) : str := default [] page.


(** ** The page (the script after the two upload widgets)

    The calls to Streamlit are the observable behaviour of the page: they are
    collected, in the order in which they are made, as a list of widgets.
    [Path(name).suffix] comes from pathlib and is a parameter, like the
    Unicode case tables and the text of a library exception. *)

(** [s.lstrip(chars)] *)
Fixpoint lstrip_chars (chars s : str) : str :=
  match s with
  | [] => []
  | c :: s' => if existsb (N.eqb c) chars then lstrip_chars chars s' else s
  end.

(** [str.upper], as [lower]. *)
Definition upper_ascii (c : N) : N :=
  if (97 <=? c) && (c <=? 122) then c - 32 else c.

Definition upper (unicode_upper : str -> str) (s : str) : str :=
  if forallb (fun c => c <? 128) s then map upper_ascii s
  else unicode_upper s.

(** Truth value of a dict: empty dicts are falsy. *)
Definition truthy_dict (d : dict) : bool :=
  match d with [] => false | _ :: _ => true end.

Record UploadedFile (Buffer : Type) := {
  upload_name : str;
  upload_value : Buffer
}.
Arguments upload_name {Buffer} _.
Arguments upload_value {Buffer} _.

Inductive widget (Buffer : Type) :=
| st_info (body : str)
| st_error (body : str)
| st_subheader (body : str)
| st_text_area (label value : str) (height : N) (help : str)
| st_warning (body : str)
| st_success (body : str)
| st_download_button (label : str) (data : Buffer) (file_name mime : str).
Arguments st_info {Buffer} body.
Arguments st_error {Buffer} body.
Arguments st_subheader {Buffer} body.
Arguments st_text_area {Buffer} label value height help.
Arguments st_warning {Buffer} body.
Arguments st_success {Buffer} body.
Arguments st_download_button {Buffer} label data file_name mime.

(** The fixed texts of the page. *)
Definition no_pairs_warning : str :=
  py "Nao foram encontrados pares `chave: valor` no documento base. "
  ++ py "Verifique o arquivo enviado.".

Definition pdf_template_notice : str :=
  py "No momento apenas templates DOCX podem ser alterados automaticamente. "
  ++ py "Voce ainda pode usar o texto extraido para atualizar o PDF manualmente.".

Definition install_hint : str :=
  py "Instale a dependencia e recarregue a pagina.".

Definition success_message : str :=
  py "Template preenchido com sucesso! Faca o download abaixo.".

Section Page.
Context {Buffer E : Type}.

Variable Document : option (Buffer -> E + DocxDocument).
Variable PyPDF2 : option (Buffer -> E + list (option str)).
Variable save : DocxDocument -> E + Buffer.
Variable unicode_lower : str -> str.
Variable unicode_upper : str -> str.
Variable suffix : str -> str.
Variable str_of_error : E -> str.

(** [str(exc)] *)
Definition str_of_exn (exc : exn E) : str :=
  match exc with
  | ImportError msg => of_string msg
  | ValueError msg => of_string msg
  | LibraryError e => str_of_error e
  end.

(** [Path(upload.name).suffix.lstrip(".").lower()] *)
Definition extension_of (upload : UploadedFile Buffer) : str :=
  lower unicode_lower (lstrip_chars (py ".") (suffix (upload_name upload))).

Definition files_notice (template_upload base_upload : UploadedFile Buffer) : str :=
  py "Template: **" ++ upload_name template_upload ++ py "** ("
  ++ upper unicode_upper (extension_of template_upload) ++ py ") | "
  ++ py "Base: **" ++ upload_name base_upload ++ py "** ("
  ++ upper unicode_upper (extension_of base_upload) ++ py ")".

(** Reading the base document: an exception is shown and leaves the empty
    text. *)
Definition read_base (base_bytes_raw : Buffer) (base_extension : str)
    : list (widget Buffer) * str :=
  match extract_text Document PyPDF2 unicode_lower base_bytes_raw base_extension with
  | Ok base_text => ([], base_text)
  | Raise (ImportError msg) =>
      ([st_error (py "Nao foi possivel ler o documento base: "
                  ++ of_string msg ++ py ". " ++ install_hint)], [])
  | Raise exc =>
      ([st_error (py "Erro ao ler o documento base: " ++ str_of_exn exc)], [])
  end.

Definition preview (base_text : str) : list (widget Buffer) :=
  if truthy base_text then
    [st_subheader (py "Pre-visualizacao dos dados extraidos");
     st_text_area (py "Dados detectados") base_text 200
       (py "Revise o texto e confirme se as linhas estao no formato chave: valor.")]
  else [].

(** Filling the template, when there are values and the template is a
    DOCX: an exception is shown and leaves no filled template. *)
Definition fill_step (template_bytes_raw : Buffer) (template_extension : str)
    (values : dict) : list (widget Buffer) * option Buffer :=
  if truthy_dict values && bool_decide (template_extension = py "docx") then
    match fill_template_with_values Document save template_bytes_raw values with
    | Ok filled_template => ([], Some filled_template)
    | Raise (ImportError msg) =>
        ([st_error (py "Nao foi possivel editar o template DOCX: "
                    ++ of_string msg ++ py ". " ++ install_hint)], None)
    | Raise exc =>
        ([st_error (py "Ocorreu um erro ao preencher o template: "
                    ++ str_of_exn exc)], None)
    end
  else ([], None).

Definition download (filled_template : option Buffer) : list (widget Buffer) :=
  match filled_template with
  | Some data =>
      [st_success success_message;
       st_download_button (py "Baixar documento preenchido") data
         (py "template-preenchido.docx")
         (py "application/vnd.openxmlformats-officedocument.wordprocessingml.document")]
  | None => []
  end.

Definition page (template_upload base_upload : option (UploadedFile Buffer))
    : list (widget Buffer) :=
  match template_upload, base_upload with
  | Some template_upload, Some base_upload =>
      let template_extension := extension_of template_upload in
      let base_extension := extension_of base_upload in
      let template_bytes_raw := upload_value template_upload in
      let base_bytes_raw := upload_value base_upload in
      let '(read_widgets, base_text) := read_base base_bytes_raw base_extension in
      let values := parse_key_values base_text in
      let '(fill_widgets, filled_template) :=
        fill_step template_bytes_raw template_extension values in
      [st_info (files_notice template_upload base_upload)]
      ++ read_widgets
      ++ preview base_text
      ++ (if negb (truthy_dict values) then [st_warning no_pairs_warning] else [])
      ++ fill_widgets
      ++ (if bool_decide (template_extension = py "docx") then []
          else [st_info pdf_template_notice])
      ++ download filled_template
  | _, _ => []
  end.

End Page.


(** [Path(name).suffix] for a file name without directory part: the part of
    the name from its last dot on, and nothing when the name has no dot or
    its last dot is its first character.  A name that ends in a dot has no
    suffix either, as in Python before 3.14. *)
Fixpoint from_last_dot (name : str) : option str :=
  match name with
  | [] => None
  | c :: rest =>
      match from_last_dot rest with
      | Some s => Some s
      | None => if c =? 46 then Some name else None
      end
  end.

Definition example_suffix (name : str) : str :=
  match name with
  | [] => []
  | _ :: rest =>
      match from_last_dot rest with
      | Some [_] | None => []
      | Some s => s
      end
  end.


(** Buffers and libraries for the examples: a buffer is a DOCX document, the
    pages of a PDF, or something neither library can read. *)
Inductive example_file :=
| docx_file (d : DocxDocument)
| pdf_file (pages : list (option str))
| broken_file.

Definition example_Document (b : example_file) : unit + DocxDocument :=
  match b with docx_file d => inr d | _ => inl tt end.

Definition example_PyPDF2 (b : example_file) : unit + list (option str) :=
  match b with pdf_file pages => inr pages | _ => inl tt end.

Definition example_save (d : DocxDocument) : unit + example_file :=
  inr (docx_file d).

Definition example_page :=
  page (Some example_Document) (Some example_PyPDF2) example_save
    id id example_suffix (fun _ => of_string "unreadable").


(** ** Filling through the library's assignment

    [paragraph.text = updated] is a call into python-docx and lxml.  The
    string may be refused (lxml raises on the characters that XML does not
    allow), and the text the paragraph has afterwards need not be the string
    that was assigned (a carriage return is stored as a line break, which
    reads as a line feed).  [assign] stands for this call: it gives the
    exception, or the text of the paragraph after the assignment.  The
    definitions of the section on template filling, with [set_text], are the
    program for a library that stores every string as it is; the definitions
    of module [Lib] are the program for any library.  An exception leaves the
    loops, so the rest of a traversal is not run. *)

Definition and_then {E A B} (r : E + A) (k : A -> E + B) : E + B :=
  match r with inl e => inl e | inr a => k a end.

(** A [for] loop whose body may raise. *)
Definition for_each {E S A} (body : S -> A -> E + S) (l : list A) (s : S) : E + S :=
  foldl (fun acc a => and_then acc (fun s => body s a)) (inr s) l.

Module Lib.
Section Assign.
Context {Buffer E : Type}.
Variable assign : str -> E + str.

(** [paragraph.text = s] *)
Definition set_text (paragraph : Paragraph) (s : str) : E + Paragraph :=
  and_then (assign s) (fun t => inr {| runs := [t] |}).

(** The body of the outer loop of [_replace_in_paragraphs]. *)
Definition replace_in_paragraph (values : dict) (paragraph : Paragraph)
    : E + Paragraph :=
  let original := text paragraph in
  let updated := replace_all values original in
  if decide (updated = original) then inr paragraph
  else set_text paragraph updated.

(** The same on the paragraph object at index [i] of the store. *)
Definition replace_at (values : dict) (st : list Paragraph) (i : nat)
    : E + list Paragraph :=
  match st !! i with
  | None => inr st
  | Some paragraph =>
      and_then (replace_in_paragraph values paragraph)
        (fun paragraph => inr (<[i := paragraph]> st))
  end.

Definition _replace_in_paragraphs (paragraphs : list nat) (values : dict)
    (st : list Paragraph) : E + list Paragraph :=
  for_each (replace_at values) paragraphs st.

Definition fill_section (values : dict) (st : list Paragraph) (section : DocSection)
    : E + list Paragraph :=
  and_then
    match header section with
    | Some h => _replace_in_paragraphs (hf_paragraphs h) values st
    | None => inr st
    end
    (fun st =>
       match footer section with
       | Some f => _replace_in_paragraphs (hf_paragraphs f) values st
       | None => inr st
       end).

Definition fill_table (values : dict) (st : list Paragraph) (table : Table)
    : E + list Paragraph :=
  for_each (fun st row =>
    for_each (fun st cell => _replace_in_paragraphs (cell_paragraphs cell) values st)
      (cells row) st)
    (rows table) st.

(** The part of [fill_template_with_values] between loading and saving. *)
Definition fill_document (document : DocxDocument) (values : dict)
    : E + DocxDocument :=
  and_then
    (_replace_in_paragraphs (doc_paragraphs document) values (doc_store document))
    (fun st =>
  and_then (for_each (fill_section values) (doc_sections document) st)
    (fun st =>
  and_then (for_each (fill_table values) (doc_tables document) st)
    (fun st => inr (with_store document st)))).

Variable Document : option (Buffer -> E + DocxDocument).
Variable save : DocxDocument -> E + Buffer.

Definition fill_template_with_values (template_bytes : Buffer) (values : dict)
    : result E Buffer :=
  match Document with
  | None => Raise (ImportError "python-docx nao esta instalado.")
  | Some Document =>
      perform document <- lift (Document template_bytes);
      perform document <- lift (fill_document document values);
      lift (save document)
  end.

End Assign.
End Lib.

(** The assignment of python-docx on top of lxml.  The string is put into a
    new run character by character: a tab becomes a tab element, a line feed
    and a carriage return become a line break each, and the characters
    between two of these are handed to lxml as one piece of text.  lxml
    encodes the piece to UTF-8, which fails on a surrogate code point
    ([UnicodeEncodeError]); it then refuses the piece when it holds a
    control character other than those three or one of the two
    non-characters at the end of the basic plane ([ValueError], "All strings
    must be XML compatible: Unicode or ASCII, no NULL bytes or control
    characters").  Read back, a tab element is a tab and a line break is a
    line feed. *)
Inductive docx_error :=
| NotXMLCompatible
| SurrogatesNotAllowed.

Definition surrogate (c : N) : bool := (55296 <=? c) && (c <=? 57343).

Definition not_xml_char (c : N) : bool :=
  (c <? 32) || (c =? 65534) || (c =? 65535).

(** The error that the piece of text read so far is going to raise, once
    the character [c] has been added to it. *)
Definition piece_error (pending : option docx_error) (c : N)
    : option docx_error :=
  if surrogate c then Some SurrogatesNotAllowed
  else match pending with
       | Some e => Some e
       | None => if not_xml_char c then Some NotXMLCompatible else None
       end.

Fixpoint append_to_run (pending : option docx_error) (s : str)
    : docx_error + str :=
  match s with
  | [] => match pending with Some e => inl e | None => inr [] end
  | c :: s =>
      if (c =? 9) || (c =? 10) || (c =? 13) then
        match pending with
        | Some e => inl e
        | None =>
            and_then (append_to_run None s)
              (fun t => inr ((if c =? 13 then 10 else c) :: t))
        end
      else
        and_then (append_to_run (piece_error pending c) s)
          (fun t => inr (c :: t))
  end.

Definition docx_assign (s : str) : docx_error + str := append_to_run None s.

(** A text that [docx_assign] stores as it is. *)
Definition plain_text (s : str) : bool :=
  forallb (fun c => (c =? 9) || (c =? 10)
                    || negb (not_xml_char c || surrogate c)) s.

(** The passes of the traversal over one paragraph object, one after the
    other, as long as none raises. *)
Fixpoint passes_at {E} (assign : str -> E + str) (values : dict) (n : nat)
    (paragraph : Paragraph) : E + Paragraph :=
  match n with
  | O => inr paragraph
  | S n =>
      and_then (Lib.replace_in_paragraph assign values paragraph)
        (passes_at assign values n)
  end.

(** A document whose table has one row, in which the cell of a merged range
    is listed once for each of its two columns. *)
Definition merged_cell_document (t : str) : DocxDocument :=
  {| doc_store := [{| runs := [t] |}];
     doc_paragraphs := [];
     doc_sections := [{| header := Some {| hf_paragraphs := [] |};
                         footer := Some {| hf_paragraphs := [] |} |}];
     doc_tables :=
       [{| rows := [{| cells := [{| cell_paragraphs := [0%nat] |};
                                 {| cell_paragraphs := [0%nat] |}] |}] |}] |}.

(** * Properties *)

(** ** The program on the examples of its description *)

Example parse_ex1 :
  parse_key_values (py "a:1" ++ LF ++ py "a:2") = [(py "a", py "2")].
Proof. reflexivity. Qed.

Example parse_ex2 : parse_key_values (py ": value") = [].
Proof. reflexivity. Qed.

Example parse_ex3 :
  parse_key_values (py "key : value with: colon")
  = [(py "key", py "value with: colon")].
Proof. reflexivity. Qed.

Example replace_ex1 :
  replace (py "Hello {{name}}!") (py "{{name}}") (py "Ana") = py "Hello Ana!".
Proof. reflexivity. Qed.

Example splitlines_ex1 :
  splitlines (py "a" ++ [13; 10] ++ [10] ++ py "b" ++ [10]) = [py "a"; []; py "b"].
Proof. reflexivity. Qed.

(** ** Facts about the string built-ins *)

Lemma startswith_prefix s pre :
  startswith s pre = true ↔ ∃ t, s = pre ++ t.
Proof.
  revert s. induction pre as [|p pre IH]; intros s; simpl.
  - split; [intros _; by exists s | done].
  - destruct s as [|c s]; simpl.
    + split; [done | intros [t Ht]; discriminate].
    + rewrite andb_true_iff, N.eqb_eq, IH. split.
      * intros [-> [t ->]]. by exists t.
      * intros [t Ht]. injection Ht as -> ->. eauto.
Qed.

Lemma startswith_app s pre t :
  startswith s pre = true → startswith (s ++ t) pre = true.
Proof.
  rewrite !startswith_prefix. intros [u ->]. exists (u ++ t).
  by rewrite <-app_assoc.
Qed.

Lemma startswith_length s pre :
  startswith s pre = true → (length pre ≤ length s)%nat.
Proof.
  rewrite startswith_prefix. intros [t ->]. rewrite length_app. lia.
Qed.

Lemma find_None s old :
  find s old = None → ∀ a b, s ≠ a ++ old ++ b.
Proof.
  induction s as [|c s IH]; simpl.
  - destruct old; simpl; [done|]. intros _ a b H.
    symmetry in H. apply app_eq_nil in H as [_ H]. discriminate.
  - destruct (startswith (c :: s) old) eqn:Hs; [done|].
    destruct (find s old) eqn:Hf; [done|]. intros _ a b H.
    destruct a as [|x a]; simpl in H.
    + assert (startswith (c :: s) old = true); [|congruence].
      apply startswith_prefix. by exists b.
    + injection H as -> H. by eapply IH.
Qed.

Lemma find_Some s old i :
  find s old = Some i →
  ∃ a b, s = a ++ old ++ b ∧ length a = i
         ∧ ∀ a1 b1, s = a1 ++ old ++ b1 → (i ≤ length a1)%nat.
Proof.
  revert i. induction s as [|c s IH]; intros i; simpl.
  - destruct old; simpl; [|done]. intros [= <-]. exists [], []. simpl.
    split_and!; [done..|]. intros; lia.
  - destruct (startswith (c :: s) old) eqn:Hs.
    + intros [= <-]. apply startswith_prefix in Hs as [t Ht].
      exists [], t. split_and!; [done..|]. intros; lia.
    + destruct (find s old) as [j|] eqn:Hf; [|done]. intros [= <-].
      destruct (IH j eq_refl) as (a & b & -> & <- & Hmin).
      exists (c :: a), b. split_and!; [done..|].
      intros [|x a1] b1 H; simpl in H.
      * assert (startswith (c :: a ++ old ++ b) old = true); [|congruence].
        apply startswith_prefix. by exists b1.
      * injection H as _ H. apply Hmin in H. simpl. lia.
Qed.

Lemma str_in_true sub s :
  str_in sub s = true ↔ ∃ a b, s = a ++ sub ++ b.
Proof.
  unfold str_in. destruct (find s sub) as [i|] eqn:Hf.
  - apply find_Some in Hf as (a & b & -> & _). split; [eauto|done].
  - split; [done|]. intros (a & b & H). by apply (find_None _ _ Hf) in H.
Qed.

Lemma str_in_false sub s :
  str_in sub s = false ↔ ∀ a b, s ≠ a ++ sub ++ b.
Proof.
  rewrite <-not_true_iff_false, str_in_true. split.
  - intros H a b Hs. apply H. eauto.
  - intros H (a & b & Hs). by apply (H a b).
Qed.

(** Passing over [k] characters is the scan of the rest. *)
Lemma replace_scan_skip old new k s :
  (k ≤ length s)%nat →
  replace_scan old new k s = replace_scan old new 0 (drop k s).
Proof.
  revert k. induction s as [|c s IH]; intros [|k] Hk; simpl in *; try done.
  apply IH. lia.
Qed.

Lemma replace_scan_match (old new t : str) :
  old ≠ [] →
  replace_scan old new 0 (old ++ t) = new ++ replace_scan old new 0 t.
Proof.
  intros Hold. destruct old as [|o old]; [done|].
  change ((o :: old) ++ t) with (o :: (old ++ t)).
  cbn [replace_scan].
  replace (startswith (o :: old ++ t) (o :: old)) with true.
  2:{ symmetry. apply startswith_prefix. by exists t. }
  f_equal. rewrite replace_scan_skip.
  - simpl. rewrite Nat.sub_0_r. by rewrite drop_app_length.
  - simpl. rewrite length_app. lia.
Qed.

Lemma replace_scan_nomatch old new c s :
  startswith (c :: s) old = false →
  replace_scan old new 0 (c :: s) = c :: replace_scan old new 0 s.
Proof. intros H. cbn [replace_scan]. by rewrite H. Qed.

(** A text without occurrence is left as it is. *)
Lemma replace_scan_absent old new s :
  (∀ a b, s ≠ a ++ old ++ b) → replace_scan old new 0 s = s.
Proof.
  induction s as [|c s IH]; intros H; [done|].
  rewrite replace_scan_nomatch.
  - f_equal. apply IH. intros a b ->. by apply (H (c :: a) b).
  - apply not_true_iff_false. rewrite startswith_prefix.
    intros [t Ht]. by apply (H [] t).
Qed.

(** The scan splits at a point that no occurrence straddles. *)
Lemma replace_scan_app old new a c :
  (∀ a1 a2, a = a1 ++ a2 → a2 ≠ [] →
     startswith (a2 ++ c) old = true → startswith a2 old = true) →
  replace_scan old new 0 (a ++ c)
  = replace_scan old new 0 a ++ replace_scan old new 0 c.
Proof.
  intros H.
  enough (∀ k, (k ≤ length a)%nat →
    replace_scan old new k (a ++ c)
    = replace_scan old new k a ++ replace_scan old new 0 c) as He
    by (apply He; lia).
  induction a as [|x a IH]; intros k Hk.
  - simpl in Hk. by replace k with 0%nat by lia.
  - assert (∀ a1 a2, a = a1 ++ a2 → a2 ≠ [] →
      startswith (a2 ++ c) old = true → startswith a2 old = true) as H'.
    { intros a1 a2 -> ??. by apply (H (x :: a1) a2). }
    destruct k as [|k]; simpl in Hk |- *.
    + destruct (startswith (x :: a ++ c) old) eqn:Hs.
      * pose proof (H [] (x :: a) eq_refl ltac:(done) Hs) as Hs'.
        rewrite Hs'. rewrite <-app_assoc. f_equal. apply IH; [done|].
        apply startswith_length in Hs'. simpl in Hs'. lia.
      * destruct (startswith (x :: a) old) eqn:Hs'.
        { apply (startswith_app _ _ c) in Hs'. simpl in Hs'. congruence. }
        simpl. f_equal. apply IH; [done|lia].
    + apply IH; [done|lia].
Qed.

Lemma replace_absent s old new :
  str_in old s = false → replace s old new = s.
Proof.
  intros H. destruct old as [|o old].
  - rewrite str_in_false in H. by destruct (H [] s).
  - apply replace_scan_absent. by apply str_in_false.
Qed.

(** ** Placeholders with brace-free keys *)

(** Closes a goal from a membership in an explicit list that cannot hold. *)
Ltac absurd_elem H :=
  apply list_elem_of_In in H; simpl in H; intuition discriminate.

Lemma placeholder_eq k : placeholder k = 123 :: 123 :: k ++ [125; 125].
Proof. reflexivity. Qed.

Lemma placeholder_nonempty k : placeholder k ≠ [].
Proof. by rewrite placeholder_eq. Qed.

Lemma brace_free_elem k c :
  brace_free k = true → c ∈ k → c ≠ 123 ∧ c ≠ 125.
Proof.
  unfold brace_free. rewrite forallb_forall. intros H Hc.
  apply list_elem_of_In, H in Hc.
  apply andb_true_iff in Hc as [H1 H2].
  apply negb_true_iff, N.eqb_neq in H1, H2. done.
Qed.

(** A brace-free key ends at the first closing brace. *)
Lemma brace_free_cancel k k2 r r' :
  brace_free k = true → brace_free k2 = true →
  k ++ 125 :: r = k2 ++ 125 :: r' → k = k2.
Proof.
  revert k2. induction k as [|c k IH]; intros [|c2 k2] Hk Hk2 H; simpl in H.
  - done.
  - injection H as <- _.
    by destruct (brace_free_elem _ 125 Hk2 ltac:(left)) as [_ []].
  - injection H as -> _.
    by destruct (brace_free_elem _ 125 Hk ltac:(left)) as [_ []].
  - injection H as -> H. f_equal.
    simpl in Hk, Hk2. apply andb_true_iff in Hk as [_ Hk], Hk2 as [_ Hk2].
    by apply (IH k2).
Qed.

Lemma brace_free_head k r c t :
  brace_free k = true → k ++ 125 :: r = c :: t → c ≠ 123.
Proof.
  intros Hk H. destruct k as [|x k]; simpl in H; injection H as <- _.
  - done.
  - by apply (brace_free_elem _ x Hk ltac:(left)).
Qed.

(** Only the placeholder of the same key starts where a placeholder starts. *)
Lemma placeholder_starts_placeholder k k2 b :
  brace_free k = true → brace_free k2 = true →
  startswith (placeholder k ++ b) (placeholder k2) = true → k = k2.
Proof.
  intros Hk Hk2. rewrite startswith_prefix, !placeholder_eq.
  intros [t H]. simpl in H. injection H as H.
  rewrite <-!app_assoc in H. simpl in H. by eapply brace_free_cancel.
Qed.

(** No placeholder of a brace-free key starts inside the placeholder of
    another one. *)
Lemma placeholder_inside k k2 b p1 p2 :
  brace_free k = true → brace_free k2 = true → k ≠ k2 →
  placeholder k = p1 ++ p2 → p2 ≠ [] →
  startswith (p2 ++ b) (placeholder k2) = false.
Proof.
  intros Hk Hk2 Hne Hp Hp2. apply not_true_iff_false. intros Hs.
  destruct p1 as [|x1 p1]; simpl in Hp.
  { subst p2. by apply placeholder_starts_placeholder in Hs. }
  rewrite placeholder_eq in Hp. injection Hp as <- Hp.
  apply startswith_prefix in Hs as [t Hs]. rewrite placeholder_eq in Hs.
  destruct p1 as [|x2 p1]; simpl in Hp.
  { subst p2. simpl in Hs. injection Hs as Hs.
    rewrite <-app_assoc in Hs. simpl in Hs.
    by apply brace_free_head in Hs. }
  injection Hp as <- Hp.
  destruct p2 as [|c p2]; [done|]. simpl in Hs. injection Hs as -> Hs.
  assert (123 ∈ k ++ [125; 125]) as Hin.
  { rewrite Hp. apply elem_of_app. right. left. }
  apply elem_of_app in Hin as [Hin|Hin].
  - by destruct (brace_free_elem _ _ Hk Hin) as [[] _].
  - absurd_elem Hin.
Qed.

(** An occurrence that starts before a placeholder ends before it. *)
Lemma placeholder_before k k2 a2 b :
  brace_free k2 = true → a2 ≠ [] →
  startswith (a2 ++ placeholder k ++ b) (placeholder k2) = true →
  startswith a2 (placeholder k2) = true.
Proof.
  intros Hk2 Ha2. rewrite !startswith_prefix. intros [t H].
  apply app_eq_inv in H as [(m & H1 & H2)|(m & H1 & H2)]; [by exists m|].
  destruct m as [|c m].
  { exists []. by rewrite H1, !app_nil_r. }
  exfalso. rewrite (placeholder_eq k) in H2. simpl in H2. injection H2 as <- H2.
  rewrite placeholder_eq in H1.
  destruct a2 as [|x a2]; [done|]. simpl in H1. injection H1 as <- H1.
  destruct a2 as [|y a2]; simpl in H1.
  - injection H1 as H1. subst m. rewrite <-!app_assoc in H2. simpl in H2.
    symmetry in H2. by apply brace_free_head in H2.
  - injection H1 as <- H1.
    assert (123 ∈ k2 ++ [125; 125]) as Hin.
    { rewrite H1. apply elem_of_app. right. left. }
    apply elem_of_app in Hin as [Hin|Hin].
    + by destruct (brace_free_elem _ _ Hk2 Hin) as [[] _].
    + absurd_elem Hin.
Qed.

Lemma replace_placeholder s k v :
  replace s (placeholder k) v = replace_scan (placeholder k) v 0 s.
Proof. by rewrite placeholder_eq. Qed.

(** The placeholder of another key is left verbatim, and the texts before
    and after it are rewritten independently. *)
Lemma replace_around_placeholder k k2 v a b :
  brace_free k = true → brace_free k2 = true → k ≠ k2 →
  replace (a ++ placeholder k ++ b) (placeholder k2) v
  = replace a (placeholder k2) v ++ placeholder k ++ replace b (placeholder k2) v.
Proof.
  intros Hk Hk2 Hne. rewrite !replace_placeholder, replace_scan_app.
  2:{ intros a1 a2 _ Ha2. by apply placeholder_before. }
  f_equal. rewrite replace_scan_app.
  2:{ intros p1 p2 Hp Hp2 Hs.
      by rewrite (placeholder_inside k k2 b p1 p2) in Hs. }
  f_equal. apply replace_scan_absent. intros p1 p2 Hp.
  assert (startswith ((placeholder k2 ++ p2) ++ []) (placeholder k2) = false)
    as Hf.
  { apply (placeholder_inside k k2 [] p1); [done..|].
    rewrite placeholder_eq. done. }
  rewrite app_nil_r in Hf.
  assert (startswith (placeholder k2 ++ p2) (placeholder k2) = true).
  { apply startswith_prefix. by exists p2. }
  congruence.
Qed.

(** ** [str.replace] against its description *)

Lemma replace_scan_first old new a b :
  old ≠ [] →
  (∀ a1 b1, a ++ old ++ b = a1 ++ old ++ b1 → (length a ≤ length a1)%nat) →
  replace_scan old new 0 (a ++ old ++ b) = a ++ new ++ replace_scan old new 0 b.
Proof.
  intros Hold Hmin. rewrite replace_scan_app.
  - rewrite replace_scan_match by done. f_equal.
    apply replace_scan_absent. intros a1 b1 ->.
    specialize (Hmin a1 (b1 ++ old ++ b)). rewrite <-!app_assoc in Hmin.
    specialize (Hmin eq_refl). rewrite !length_app in Hmin.
    destruct old; [done|]. simpl in Hmin. lia.
  - intros a1 a2 -> Ha2 Hs. exfalso.
    apply startswith_prefix in Hs as [u Hu].
    specialize (Hmin a1 u). rewrite <-app_assoc, Hu in Hmin.
    specialize (Hmin eq_refl). rewrite length_app in Hmin.
    destruct a2; [done|]. simpl in Hmin. lia.
Qed.

Lemma replace_nonempty s old new :
  old ≠ [] → replace s old new = replace_scan old new 0 s.
Proof. by destruct old. Qed.

Lemma replaced_replace old new s :
  old ≠ [] → replaced old new s (replace s old new).
Proof.
  intros Hold. rewrite replace_nonempty by done.
  remember (length s) as n eqn:Hn. revert s Hn.
  induction n as [n IH] using lt_wf_ind. intros s Hn.
  destruct (find s old) as [i|] eqn:Hf.
  - apply find_Some in Hf as (a & b & -> & <- & Hmin).
    rewrite replace_scan_first by done.
    apply replaced_first; [done|].
    apply (IH (length b)); [|done]. subst n. rewrite !length_app.
    destruct old; [done|]. simpl. lia.
  - pose proof (find_None _ _ Hf) as Ha.
    rewrite replace_scan_absent by done. by apply replaced_none.
Qed.

Lemma replaced_unique old new s t :
  old ≠ [] → replaced old new s t → t = replace s old new.
Proof.
  intros Hold H. rewrite replace_nonempty by done.
  induction H as [t H|a b b' Hmin _ IH].
  - by rewrite replace_scan_absent.
  - rewrite replace_scan_first by done. by rewrite IH.
Qed.

(** ** One pass over a paragraph *)

Lemma replace_step_replace t k v :
  replace_step t (k, v) = replace t (placeholder k) v.
Proof.
  unfold replace_step. destruct (str_in _ _) eqn:H; [done|].
  by rewrite replace_absent.
Qed.

Lemma replace_all_cons k v values t :
  replace_all ((k, v) :: values) t
  = replace_all values (replace t (placeholder k) v).
Proof.
  unfold replace_all.
  change (foldl replace_step t ((k, v) :: values))
    with (foldl replace_step (replace_step t (k, v)) values).
  by rewrite replace_step_replace.
Qed.

Lemma filled_replace_all values t : filled values t (replace_all values t).
Proof.
  revert t. induction values as [|[k v] values IH]; intros t.
  - apply filled_nil.
  - rewrite replace_all_cons. eapply filled_cons; [|apply IH].
    apply replaced_replace, placeholder_nonempty.
Qed.

Lemma filled_unique values t t' : filled values t t' → t' = replace_all values t.
Proof.
  induction 1 as [|k v values t t1 t2 H1 _ IH]; [done|].
  rewrite replace_all_cons.
  by rewrite <-(replaced_unique _ _ _ _ (placeholder_nonempty k) H1).
Qed.

Lemma text_set_text p s : text (set_text p s) = s.
Proof. unfold text. simpl. apply app_nil_r. Qed.

Lemma text_replace_in_paragraph values p :
  text (replace_in_paragraph values p) = replace_all values (text p).
Proof.
  unfold replace_in_paragraph. case_decide as H; [done|apply text_set_text].
Qed.

Lemma text_iter_replace_in_paragraph values n p :
  text (Nat.iter n (replace_in_paragraph values) p)
  = Nat.iter n (replace_all values) (text p).
Proof.
  induction n as [|n IH]; [done|]. simpl.
  by rewrite text_replace_in_paragraph, IH.
Qed.

(** ** The traversal of a document *)

Lemma lookup_foldl_alter {A} (f : A → A) (l : list nat) (st : list A) p :
  foldl (λ st i, alter f i st) st l !! p
  = Nat.iter (length (filter (λ i, i = p) l)) f <$> st !! p.
Proof.
  revert st. induction l as [|i l IH]; intros st; simpl.
  - by destruct (st !! p).
  - rewrite IH. rewrite filter_cons. case_decide as Hi.
    + subst i. rewrite list_lookup_alter_eq. simpl.
      destruct (st !! p); simpl; [|done]. by rewrite <-Nat.iter_succ_r.
    + by rewrite list_lookup_alter_ne.
Qed.

Lemma replace_in_paragraphs_app l1 l2 values st :
  _replace_in_paragraphs (l1 ++ l2) values st
  = _replace_in_paragraphs l2 values (_replace_in_paragraphs l1 values st).
Proof. apply foldl_app. Qed.

Lemma fill_sections values st secs :
  foldl (fill_section values) st secs
  = _replace_in_paragraphs (s ← secs; section_paragraphs s) values st.
Proof.
  revert st. induction secs as [|s secs IH]; intros st; [done|].
  simpl. rewrite IH, replace_in_paragraphs_app. f_equal.
  unfold fill_section, section_paragraphs.
  rewrite replace_in_paragraphs_app.
  by destruct (header s), (footer s).
Qed.

Lemma fill_cells values st cs :
  foldl (λ st cell, _replace_in_paragraphs (cell_paragraphs cell) values st) st cs
  = _replace_in_paragraphs (c ← cs; cell_paragraphs c) values st.
Proof.
  revert st. induction cs as [|c cs IH]; intros st; [done|].
  simpl. by rewrite IH, replace_in_paragraphs_app.
Qed.

Lemma fill_tables values st ts :
  foldl (fill_table values) st ts
  = _replace_in_paragraphs (c ← (t ← ts; table_cells t); cell_paragraphs c) values st.
Proof.
  revert st. induction ts as [|t ts IH]; intros st; [done|].
  simpl. rewrite IH, bind_app, replace_in_paragraphs_app. f_equal.
  unfold fill_table, table_cells.
  generalize (rows t). clear. intros rs. revert st.
  induction rs as [|r rs IH]; intros st; [done|].
  simpl. by rewrite IH, fill_cells, bind_app, replace_in_paragraphs_app.
Qed.

Lemma fill_document_store d values :
  doc_store (fill_document d values)
  = _replace_in_paragraphs (reachable d) values (doc_store d).
Proof.
  unfold fill_document, reachable. simpl.
  by rewrite !replace_in_paragraphs_app, fill_sections, fill_tables.
Qed.

Lemma fill_document_lookup d values p :
  doc_store (fill_document d values) !! p
  = Nat.iter (visits p d) (replace_in_paragraph values) <$> doc_store d !! p.
Proof. rewrite fill_document_store. apply lookup_foldl_alter. Qed.

Lemma visits_reachable p d : p ∈ reachable d ↔ (0 < visits p d)%nat.
Proof.
  unfold visits. generalize (reachable d). intros l.
  induction l as [|i l IH]; simpl.
  - split; [by intros ?%elem_of_nil|lia].
  - rewrite elem_of_cons, filter_cons. case_decide; simpl.
    + split; [lia|auto].
    + rewrite IH. split; [by intros [->|?]|by right].
Qed.

(** ** Paragraphs without placeholder of the mapping *)

Lemma replace_all_absent values t :
  (∀ k v, (k, v) ∈ values → str_in (placeholder k) t = false) →
  replace_all values t = t.
Proof.
  induction values as [|[k v] values IH]; intros H; [done|].
  rewrite replace_all_cons, replace_absent.
  - apply IH. intros k' v' Hin. apply (H k' v'). by right.
  - apply (H k v). by left.
Qed.

Lemma replace_in_paragraph_unchanged values par :
  replace_all values (text par) = text par →
  replace_in_paragraph values par = par.
Proof. intros H. unfold replace_in_paragraph. by rewrite decide_True. Qed.

Lemma replace_in_paragraphs_unchanged l values st :
  (∀ i par, i ∈ l → st !! i = Some par →
     replace_in_paragraph values par = par) →
  _replace_in_paragraphs l values st = st.
Proof.
  unfold _replace_in_paragraphs. induction l as [|i l IH]; intros H; [done|].
  simpl. assert (alter (replace_in_paragraph values) i st = st) as ->.
  { apply list_eq. intros j. destruct (decide (i = j)) as [<-|Hne].
    - rewrite list_lookup_alter_eq. destruct (st !! i) as [par|] eqn:Hi; [|done].
      simpl. f_equal. apply (H i); [left|done].
    - by rewrite list_lookup_alter_ne. }
  apply IH. intros j par Hj. apply H. by right.
Qed.

Lemma with_store_same d : with_store d (doc_store d) = d.
Proof. by destruct d. Qed.

Lemma fill_document_with_store d values :
  fill_document d values = with_store d (doc_store (fill_document d values)).
Proof. done. Qed.

Lemma fill_document_unchanged d values :
  (∀ p par, p ∈ reachable d → doc_store d !! p = Some par →
     replace_all values (text par) = text par) →
  fill_document d values = d.
Proof.
  intros H. rewrite fill_document_with_store, fill_document_store.
  rewrite replace_in_paragraphs_unchanged; [apply with_store_same|].
  intros i par Hi Hpar. apply replace_in_paragraph_unchanged. by apply (H i).
Qed.

(** ** Well-formed template texts: filling is a simultaneous substitution *)

Lemma replace_literal s k v t :
  brace_free s = true →
  replace (s ++ t) (placeholder k) v = s ++ replace t (placeholder k) v.
Proof.
  intros Hs. rewrite !replace_placeholder.
  assert (∀ a1 a2 u, s = a1 ++ a2 → a2 ≠ [] →
            startswith (a2 ++ u) (placeholder k) = false) as Hno.
  { intros a1 a2 u -> Ha2. apply not_true_iff_false.
    rewrite startswith_prefix, placeholder_eq. intros [w Hw].
    destruct a2 as [|x a2]; [done|]. simpl in Hw. injection Hw as -> _.
    assert (123 ∈ a1 ++ 123 :: a2) as Hin by (apply elem_of_app; right; left).
    by destruct (brace_free_elem _ _ Hs Hin) as [[] _]. }
  rewrite replace_scan_app.
  - f_equal. apply replace_scan_absent. intros a1 b1 Ha.
    specialize (Hno a1 (placeholder k ++ b1) [] Ha).
    rewrite app_nil_r in Hno.
    assert (startswith (placeholder k ++ b1) (placeholder k) = true) as Ht.
    { apply startswith_prefix. by exists b1. }
    rewrite Hno in Ht; [done|]. by rewrite placeholder_eq.
  - intros a1 a2 Ha Ha2 Hst. by rewrite (Hno a1 a2 t) in Hst.
Qed.

Lemma replace_own_placeholder k v t :
  replace (placeholder k ++ t) (placeholder k) v
  = v ++ replace t (placeholder k) v.
Proof.
  rewrite !replace_placeholder. apply replace_scan_match, placeholder_nonempty.
Qed.

Lemma replace_other_placeholder k k2 v t :
  brace_free k = true → brace_free k2 = true → k ≠ k2 →
  replace (placeholder k ++ t) (placeholder k2) v
  = placeholder k ++ replace t (placeholder k2) v.
Proof.
  intros Hk Hk2 Hne.
  pose proof (replace_around_placeholder k k2 v [] t Hk Hk2 Hne) as H.
  by rewrite replace_placeholder in H.
Qed.

Lemma render_cons seg segs : render (seg :: segs) = render_segment seg ++ render segs.
Proof. done. Qed.

Lemma replace_render k v segs :
  brace_free k = true → forallb segment_ok segs = true →
  replace (render segs) (placeholder k) v
  = render (map (subst_segment [(k, v)]) segs).
Proof.
  intros Hk. induction segs as [|seg segs IH]; intros Hok.
  - by rewrite replace_placeholder.
  - simpl in Hok. apply andb_true_iff in Hok as [Hseg Hok].
    rewrite !render_cons, map_cons, render_cons, <-(IH Hok).
    destruct seg as [s|k']; simpl in *.
    + by apply replace_literal.
    + case_decide as Hkk.
      * subst k'. apply replace_own_placeholder.
      * apply replace_other_placeholder; done.
Qed.

Lemma subst_segment_ok values seg :
  brace_free_dict values = true → segment_ok seg = true →
  segment_ok (subst_segment values seg) = true.
Proof.
  intros Hv Hseg. destruct seg as [s|k]; [done|]. simpl.
  destruct (dict_get values k) as [v|] eqn:Hg; [|done]. simpl.
  induction values as [|[k' v'] values IH]; [done|].
  simpl in Hv, Hg. apply andb_true_iff in Hv as [Hkv Hv].
  apply andb_true_iff in Hkv as [_ Hv']. case_decide.
  - by injection Hg as <-.
  - by apply IH.
Qed.

Lemma subst_segment_cons k v values seg :
  subst_segment values (subst_segment [(k, v)] seg)
  = subst_segment ((k, v) :: values) seg.
Proof.
  destruct seg as [s|k']; [done|]. simpl. by case_decide.
Qed.

Lemma replace_all_render values segs :
  brace_free_dict values = true → forallb segment_ok segs = true →
  replace_all values (render segs) = render (map (subst_segment values) segs).
Proof.
  revert segs. induction values as [|[k v] values IH]; intros segs Hv Hok.
  - unfold replace_all. simpl. f_equal. symmetry.
    rewrite <-(map_id segs) at 2. apply map_ext. by intros [].
  - simpl in Hv. apply andb_true_iff in Hv as [Hkv Hv].
    apply andb_true_iff in Hkv as [Hk Hv']. simpl in Hk, Hv'.
    rewrite replace_all_cons, replace_render by done.
    rewrite IH; [|done|].
    + f_equal. rewrite map_map. apply map_ext. intros seg.
      apply subst_segment_cons.
    + rewrite forallb_forall in Hok |- *. intros seg Hin.
      apply in_map_iff in Hin as (seg' & <- & Hin).
      apply subst_segment_ok; [|by apply Hok].
      simpl. by rewrite Hk, Hv'.
Qed.

Lemma replace_all_well_formed values t :
  brace_free_dict values = true → well_formed t →
  well_formed (replace_all values t).
Proof.
  intros Hv (segs & Hok & ->). exists (map (subst_segment values) segs).
  split; [|by apply replace_all_render].
  rewrite forallb_forall in Hok |- *. intros seg Hin.
  apply in_map_iff in Hin as (seg' & <- & Hin).
  apply subst_segment_ok; [done|by apply Hok].
Qed.

(** ** The order of the mapping *)

Lemma dict_get_Some values k v :
  NoDup values.*1 → dict_get values k = Some v ↔ (k, v) ∈ values.
Proof.
  induction values as [|[k' v'] values IH]; simpl; intros Hnd.
  - split; [done|by intros ?%elem_of_nil].
  - apply NoDup_cons in Hnd as [Hk' Hnd]. rewrite elem_of_cons.
    case_decide as Hkk.
    + subst k'. split; [intros [= ->]; by left|].
      intros [[= ->]|Hin]; [done|]. destruct Hk'.
      apply list_elem_of_fmap. by exists (k, v).
    + rewrite IH by done. split; [by right|]. by intros [[= -> ->]|].
Qed.

Lemma dict_get_perm values1 values2 k :
  NoDup values1.*1 → values1 ≡ₚ values2 →
  dict_get values1 k = dict_get values2 k.
Proof.
  intros Hnd Hp. assert (NoDup values2.*1) as Hnd2 by (by rewrite <-Hp).
  apply option_eq. intros v. rewrite !dict_get_Some by done. by rewrite Hp.
Qed.

Lemma replace_all_perm values1 values2 t :
  NoDup values1.*1 → values1 ≡ₚ values2 →
  brace_free_dict values1 = true → well_formed t →
  replace_all values1 t = replace_all values2 t.
Proof.
  intros Hnd Hp Hv (segs & Hok & ->).
  assert (brace_free_dict values2 = true) as Hv2.
  { unfold brace_free_dict in *. rewrite forallb_forall in Hv |- *.
    intros kv Hin. apply Hv. apply list_elem_of_In.
    rewrite Hp. by apply list_elem_of_In. }
  rewrite !replace_all_render by done. f_equal. apply map_ext.
  intros [s|k]; [done|]. simpl. by rewrite (dict_get_perm values1 values2).
Qed.

(** ** Placeholders of keys that are not in the mapping *)



(** ** Properties of [fill_template_with_values] *)

Lemma in_scope_reachable d p : in_scope d p ↔ p ∈ reachable d.
Proof.
  unfold in_scope, reachable, table_cells, section_paragraphs.
  rewrite !elem_of_app. repeat setoid_rewrite list_elem_of_bind.
  setoid_rewrite elem_of_app. split.
  - intros [H|[(s & h & Hs & Hh & Hp)|(t & r & c & Ht & Hr & Hc & Hp)]].
    + by left.
    + right; left. exists s. split; [|done].
      destruct Hh as [->| ->]; [by left|by right].
    + right; right. exists c. split; [done|]. exists t. split; [|done].
      by exists r.
  - intros [H|[(s & Hp & Hs)|(c & Hp & t & (r & Hc & Hr) & Ht)]].
    + by left.
    + right; left. destruct Hp as [Hp|Hp].
      * destruct (header s) as [h|] eqn:Hh; [|by apply elem_of_nil in Hp].
        exists s, h. auto.
      * destruct (footer s) as [h|] eqn:Hh; [|by apply elem_of_nil in Hp].
        exists s, h. auto.
    + right; right. by exists t, r, c.
Qed.

Lemma replace_all_empty values : replace_all values [] = [].
Proof.
  induction values as [|[k v] values IH]; [done|].
  by rewrite replace_all_cons, replace_placeholder.
Qed.

Lemma iter_fixed {A} (f : A → A) n x : f x = x → Nat.iter n f x = x.
Proof. intros H. induction n as [|n IH]; [done|]. by rewrite Nat.iter_succ, IH. Qed.

Lemma replace_in_paragraph_ext values1 values2 par :
  replace_all values1 (text par) = replace_all values2 (text par) →
  replace_in_paragraph values1 par = replace_in_paragraph values2 par.
Proof. intros H. unfold replace_in_paragraph. by rewrite H. Qed.

Lemma iter_replace_in_paragraph_perm n values1 values2 par :
  NoDup values1.*1 → values1 ≡ₚ values2 →
  brace_free_dict values1 = true → well_formed (text par) →
  Nat.iter n (replace_in_paragraph values1) par
  = Nat.iter n (replace_in_paragraph values2) par
  ∧ well_formed (text (Nat.iter n (replace_in_paragraph values1) par)).
Proof.
  intros Hnd Hp Hv Hwf. induction n as [|n [IH1 IH2]]; [done|].
  rewrite !Nat.iter_succ, <-IH1. split.
  - apply replace_in_paragraph_ext. by apply replace_all_perm.
  - rewrite text_replace_in_paragraph. by apply replace_all_well_formed.
Qed.

Lemma fill_document_perm d values1 values2 :
  values1 ≡ₚ values2 → NoDup values1.*1 →
  brace_free_dict values1 = true →
  (∀ p par, in_scope d p → doc_store d !! p = Some par →
     well_formed (text par)) →
  fill_document d values1 = fill_document d values2.
Proof.
  intros Hp Hnd Hv Hwf.
  rewrite (fill_document_with_store d values1),
    (fill_document_with_store d values2).
  f_equal. apply list_eq. intros p. rewrite !fill_document_lookup.
  destruct (doc_store d !! p) as [par|] eqn:Hpar; [|done]. simpl. f_equal.
  destruct (visits p d) as [|n] eqn:Hn; [done|].
  apply iter_replace_in_paragraph_perm; [done..|].
  apply (Hwf p); [|done]. apply in_scope_reachable, visits_reachable. lia.
Qed.

(** A paragraph that the traversal meets twice is rewritten twice: the cell
    of a merged range, listed once per column, with a value that brings the
    placeholder back. *)
Example merged_cell_filled_twice :
  text_at
    (doc_store
       (fill_document
          {| doc_store := [{| runs := [py "{{a}}"] |}];
             doc_paragraphs := [];
             doc_sections := [];
             doc_tables :=
               [{| rows := [{| cells := [{| cell_paragraphs := [0%nat] |};
                                         {| cell_paragraphs := [0%nat] |}] |}] |}] |}
          [(py "a", py "{{a}}!")])) 0
  = py "{{a}}!!".
Proof. reflexivity. Qed.

Section Filling.
Context {Buffer E : Type}.

(** The library is installed: [Document] reads a buffer, [save] writes a
    document. *)
Variable Document : Buffer → E + DocxDocument.
Variable save : DocxDocument → E + Buffer.

Local Abbreviation fill := (fill_template_with_values (Some Document) save).

(** The document that is saved is the loaded one after [fill_document]. *)
Lemma fill_template_with_values_loaded template_bytes values d :
  Document template_bytes = inr d →
  fill template_bytes values = lift (save (fill_document d values)).
Proof. intros H. unfold fill_template_with_values. by rewrite H. Qed.


(** C10. With the empty mapping no paragraph is assigned: the document that
    is saved is the one that was loaded, runs included. *)
Theorem fill_empty_mapping template_bytes d :
  Document template_bytes = inr d →
  fill template_bytes [] = lift (save d)
  ∧ fill_document d [] = d.
Proof.
  intros Hd. assert (fill_document d [] = d) as Hfill.
  { by apply fill_document_unchanged. }
  split; [|done]. by rewrite (fill_template_with_values_loaded _ _ d), Hfill.
Qed.

(** C3. When the filled document has no placeholder of a key of the mapping
    left in the paragraphs the traversal reaches, filling it again with the
    same mapping changes nothing: from an output that reads back as the
    document that was saved, the second run saves that document again. *)
Theorem fill_twice_unchanged template_bytes d values output :
  Document template_bytes = inr d →
  fill template_bytes values = Ok output →
  Document output = inr (fill_document d values) →
  (∀ p par k v,
     in_scope d p →
     doc_store (fill_document d values) !! p = Some par →
     (k, v) ∈ values →
     str_in (placeholder k) (text par) = false) →
  fill_document (fill_document d values) values = fill_document d values
  ∧ fill output values = Ok output.
Proof.
  intros Hd Hout Hback H.
  assert (fill_document (fill_document d values) values
          = fill_document d values) as Hfill.
  { apply fill_document_unchanged. intros p par Hp Hpar.
    apply replace_all_absent. intros k v Hkv. apply (H p par k v); [|done..].
    by apply in_scope_reachable. }
  split; [done|].
  rewrite (fill_template_with_values_loaded _ _ _ Hback), Hfill, <-Hout.
  symmetry. by apply fill_template_with_values_loaded.
Qed.


(** C2, as the program has it.  Two mappings with the same pairs in
    different orders give the same filled document when keys and values are
    free of braces and the texts of the reachable paragraphs are made of
    brace-free literal pieces and placeholders of brace-free keys. *)
Theorem fill_mapping_order template_bytes d values1 values2 :
  Document template_bytes = inr d →
  values1 ≡ₚ values2 → NoDup values1.*1 →
  brace_free_dict values1 = true →
  (∀ p par, in_scope d p → doc_store d !! p = Some par →
     well_formed (text par)) →
  fill_document d values1 = fill_document d values2
  ∧ fill template_bytes values1 = fill template_bytes values2.
Proof.
  intros Hd Hp Hnd Hv Hwf.
  assert (fill_document d values1 = fill_document d values2) as Hfill.
  { by apply fill_document_perm. }
  split; [done|].
  by rewrite !(fill_template_with_values_loaded _ _ d), Hfill.
Qed.

End Filling.

Lemma fill_template_with_values_missing {Buffer E : Type}
    (save : DocxDocument → E + Buffer) (template_bytes : Buffer) (values : dict) :
  fill_template_with_values None save template_bytes values
  = Raise (ImportError "python-docx nao esta instalado.").
Proof. done. Qed.

(** *** The properties on documents of the description

    In these examples a buffer is the document itself: reading and saving
    leave it as it is. *)


Lemma fill_empty_mapping_witness :
  fill_template_with_values (E := unit) (Some inr) inr
    (paragraph_and_cell (py "{{a}}") (py "B")) []
  = Ok (paragraph_and_cell (py "{{a}}") (py "B")).
Proof.
  destruct (fill_empty_mapping (E := unit) inr inr
              (paragraph_and_cell (py "{{a}}") (py "B"))
              (paragraph_and_cell (py "{{a}}") (py "B"))) as [H _].
  - reflexivity.
  - exact H.
Defined.

Lemma fill_twice_unchanged_witness :
  fill_template_with_values (E := unit) (Some inr) inr
    (fill_document (plain_document [py "Hello {{name}}, your id is {{id}}."])
       [(py "name", py "Ana"); (py "id", py "42")])
    [(py "name", py "Ana"); (py "id", py "42")]
  = Ok (fill_document (plain_document [py "Hello {{name}}, your id is {{id}}."])
          [(py "name", py "Ana"); (py "id", py "42")]).
Proof.
  destruct (fill_twice_unchanged (E := unit) inr inr
              (plain_document [py "Hello {{name}}, your id is {{id}}."])
              (plain_document [py "Hello {{name}}, your id is {{id}}."])
              [(py "name", py "Ana"); (py "id", py "42")]
              (fill_document
                 (plain_document [py "Hello {{name}}, your id is {{id}}."])
                 [(py "name", py "Ana"); (py "id", py "42")])) as [_ H].
  - reflexivity.
  - reflexivity.
  - reflexivity.
  - intros p par k v Hp%in_scope_reachable Hpar Hkv.
    apply list_elem_of_In in Hp. simpl in Hp. destruct Hp as [<-|[]].
    vm_compute in Hpar. injection Hpar as <-.
    apply list_elem_of_In in Hkv. simpl in Hkv.
    destruct Hkv as [[= <- <-]|[[= <- <-]|[]]]; reflexivity.
  - exact H.
Defined.



Lemma fill_mapping_order_witness :
  fill_template_with_values (E := unit) (Some inr) inr
    (plain_document [py "Hello {{name}}, your id is {{id}}."])
    [(py "name", py "Ana"); (py "id", py "42")]
  = fill_template_with_values (E := unit) (Some inr) inr
      (plain_document [py "Hello {{name}}, your id is {{id}}."])
      [(py "id", py "42"); (py "name", py "Ana")].
Proof.
  destruct (fill_mapping_order (E := unit) inr inr
              (plain_document [py "Hello {{name}}, your id is {{id}}."])
              (plain_document [py "Hello {{name}}, your id is {{id}}."])
              [(py "name", py "Ana"); (py "id", py "42")]
              [(py "id", py "42"); (py "name", py "Ana")]) as [_ H].
  - reflexivity.
  - apply perm_swap.
  - apply NoDup_ListNoDup. simpl.
    repeat constructor; simpl; intuition discriminate.
  - reflexivity.
  - intros p par Hp%in_scope_reachable Hpar.
    apply list_elem_of_In in Hp. simpl in Hp. destruct Hp as [<-|[]].
    vm_compute in Hpar. injection Hpar as <-.
    exists [Lit (py "Hello "); Ph (py "name"); Lit (py ", your id is ");
            Ph (py "id"); Lit (py ".")].
    split; reflexivity.
  - exact H.
Defined.

(** C2 as worded fails: a value that holds the placeholder of another key
    is filled in turn or not, depending on the order of the keys. *)
Lemma mapping_order_matters :
  [(py "a", py "{{b}}"); (py "b", py "x")]
    ≡ₚ [(py "b", py "x"); (py "a", py "{{b}}")]
  ∧ fill_template_with_values (E := unit) (Some inr) inr
      (plain_document [py "{{a}}"]) [(py "a", py "{{b}}"); (py "b", py "x")]
    = Ok (plain_document [py "x"])
  ∧ fill_template_with_values (E := unit) (Some inr) inr
      (plain_document [py "{{a}}"]) [(py "b", py "x"); (py "a", py "{{b}}")]
    = Ok (plain_document [py "{{b}}"])
  ∧ plain_document [py "x"] ≠ plain_document [py "{{b}}"].
Proof.
  split_and!; [apply perm_swap|by vm_compute..|].
  intros H. apply (f_equal doc_store) in H. vm_compute in H. discriminate.
Qed.

(** ** Filling through the library's assignment *)

(** *** Loops that may raise *)

Lemma for_each_raised {E S A} (body : S → A → E + S) (l : list A) (e : E) :
  foldl (λ acc a, and_then acc (λ s, body s a)) (inl e) l = inl e.
Proof. induction l as [|a l IH]; [done|]. simpl. apply IH. Qed.

Lemma for_each_cons {E S A} (body : S → A → E + S) a l s :
  for_each body (a :: l) s = and_then (body s a) (for_each body l).
Proof.
  unfold for_each. simpl. destruct (body s a) as [e|s']; simpl; [|done].
  apply for_each_raised.
Qed.

Lemma for_each_app {E S A} (body : S → A → E + S) l1 l2 s :
  for_each body (l1 ++ l2) s = and_then (for_each body l1 s) (for_each body l2).
Proof.
  revert s. induction l1 as [|a l1 IH]; intros s; [done|].
  simpl. rewrite !for_each_cons. destruct (body s a) as [e|s']; simpl; [done|].
  apply IH.
Qed.

Lemma for_each_bind {E S A B} (body : S → B → E + S) (g : A → list B) l s :
  for_each (λ s a, for_each body (g a) s) l s = for_each body (a ← l; g a) s.
Proof.
  revert s. induction l as [|a l IH]; intros s; [done|].
  rewrite for_each_cons. change (a :: l) with ([a] ++ l).
  rewrite bind_app, for_each_app. simpl. rewrite app_nil_r.
  destruct (for_each body (g a) s); simpl; [done|apply IH].
Qed.

Section Traversal.
Context {E : Type}.
Variable assign : str → E + str.

Local Abbreviation traverse values := (for_each (Lib.replace_at assign values)).

Lemma lib_fill_section values st s :
  Lib.fill_section assign values st s
  = traverse values (section_paragraphs s) st.
Proof.
  unfold Lib.fill_section, section_paragraphs, Lib._replace_in_paragraphs.
  rewrite for_each_app. by destruct (header s), (footer s).
Qed.

Lemma lib_fill_sections values secs st :
  for_each (Lib.fill_section assign values) secs st
  = traverse values (s ← secs; section_paragraphs s) st.
Proof.
  revert st. induction secs as [|s secs IH]; intros st; [done|].
  change (s :: secs) with ([s] ++ secs) at 2.
  rewrite for_each_cons, bind_app, for_each_app. simpl. rewrite app_nil_r.
  rewrite lib_fill_section.
  destruct (for_each _ (section_paragraphs s) st); simpl; [done|apply IH].
Qed.

Lemma lib_fill_table values st t :
  Lib.fill_table assign values st t
  = traverse values (c ← table_cells t; cell_paragraphs c) st.
Proof.
  unfold Lib.fill_table, table_cells, Lib._replace_in_paragraphs.
  rewrite <-for_each_bind. rewrite <-(for_each_bind _ cells). done.
Qed.

Lemma lib_fill_tables values ts st :
  for_each (Lib.fill_table assign values) ts st
  = traverse values (c ← (t ← ts; table_cells t); cell_paragraphs c) st.
Proof.
  revert st. induction ts as [|t ts IH]; intros st; [done|].
  change (t :: ts) with ([t] ++ ts) at 2.
  rewrite for_each_cons, !bind_app, for_each_app. simpl. rewrite app_nil_r.
  rewrite lib_fill_table.
  destruct (for_each _ (_ ≫= _) st); simpl; [done|apply IH].
Qed.

Lemma lib_fill_document_traverse d values :
  Lib.fill_document assign d values
  = and_then (traverse values (reachable d) (doc_store d))
      (λ st, inr (with_store d st)).
Proof.
  unfold Lib.fill_document, reachable, Lib._replace_in_paragraphs.
  rewrite !for_each_app.
  destruct (for_each _ (doc_paragraphs d) _) as [e|st]; simpl; [done|].
  rewrite lib_fill_sections.
  rewrite for_each_app.
  destruct (for_each _ (_ ≫= _) st) as [e|st1]; simpl; [done|].
  by rewrite lib_fill_tables.
Qed.

(** *** The paragraph objects after a traversal that did not raise *)

Lemma traverse_lookup values l st st' p :
  traverse values l st = inr st' →
  match st !! p with
  | None => st' !! p = None
  | Some par =>
      ∃ par', passes_at assign values (length (filter (λ i, i = p) l)) par
              = inr par'
              ∧ st' !! p = Some par'
  end.
Proof.
  revert st. induction l as [|i l IH]; intros st.
  - intros [= <-]. destruct (st !! p) as [par|]; [|done]. by exists par.
  - rewrite for_each_cons. unfold Lib.replace_at at 1.
    destruct (st !! i) as [par_i|] eqn:Hi; simpl.
    + destruct (Lib.replace_in_paragraph assign values par_i)
        as [e|par_i'] eqn:Hpass; simpl; [done|].
      intros H. specialize (IH _ H). rewrite filter_cons.
      destruct (decide (i = p)) as [->|Hne].
      * rewrite Hi. rewrite list_lookup_insert_eq in IH
          by (by eapply lookup_lt_Some).
        destruct IH as (par' & Hn & Hp). exists par'. split; [|done].
        simpl. by rewrite Hpass.
      * by rewrite list_lookup_insert_ne in IH.
    + intros H. specialize (IH _ H). rewrite filter_cons.
      destruct (decide (i = p)) as [->|Hne]; [|done].
      by rewrite Hi in IH |- *.
Qed.

Lemma lib_fill_document_lookup d values d' p :
  Lib.fill_document assign d values = inr d' →
  doc_paragraphs d' = doc_paragraphs d
  ∧ match doc_store d !! p with
    | None => doc_store d' !! p = None
    | Some par =>
        ∃ par', passes_at assign values (visits p d) par = inr par'
                ∧ doc_store d' !! p = Some par'
    end.
Proof.
  rewrite lib_fill_document_traverse.
  destruct (traverse values (reachable d) (doc_store d)) as [e|st] eqn:Ht;
    simpl; [done|].
  intros [= <-]. split; [done|]. by apply traverse_lookup.
Qed.

(** A pass that changes nothing does not reach the library. *)
Lemma lib_replace_in_paragraph_unchanged values par :
  replace_all values (text par) = text par →
  Lib.replace_in_paragraph assign values par = inr par.
Proof. intros H. unfold Lib.replace_in_paragraph. by rewrite decide_True. Qed.

Lemma passes_at_unchanged values n par :
  replace_all values (text par) = text par →
  passes_at assign values n par = inr par.
Proof.
  intros H. induction n as [|n IH]; [done|]. simpl.
  by rewrite lib_replace_in_paragraph_unchanged.
Qed.

(** A pass whose new text the library stores as it is. *)
Lemma lib_replace_in_paragraph_stored values par :
  (replace_all values (text par) ≠ text par →
   assign (replace_all values (text par))
   = inr (replace_all values (text par))) →
  Lib.replace_in_paragraph assign values par
  = inr (replace_in_paragraph values par).
Proof.
  intros H. unfold Lib.replace_in_paragraph, replace_in_paragraph.
  case_decide as Hne; [done|]. unfold Lib.set_text. by rewrite (H Hne).
Qed.

Lemma alter_lookup_insert {A} (f : A → A) (l : list A) i x :
  l !! i = Some x → alter f i l = <[i := f x]> l.
Proof.
  intros H. apply list_eq. intros j. destruct (decide (i = j)) as [<-|Hne].
  - rewrite list_lookup_alter_eq, H, list_lookup_insert_eq; [done|].
    by eapply lookup_lt_Some.
  - by rewrite list_lookup_alter_ne, list_lookup_insert_ne.
Qed.

Lemma alter_lookup_None {A} (f : A → A) (l : list A) i :
  l !! i = None → alter f i l = l.
Proof.
  intros H. apply list_eq. intros j. destruct (decide (i = j)) as [<-|Hne].
  - by rewrite list_lookup_alter_eq, H.
  - by rewrite list_lookup_alter_ne.
Qed.

(** When no paragraph object is listed twice and the library stores every
    new text as it is, the traversal is the one with [set_text]. *)
Lemma traverse_stored values l st :
  NoDup l →
  (∀ i par, i ∈ l → st !! i = Some par →
     replace_all values (text par) ≠ text par →
     assign (replace_all values (text par))
     = inr (replace_all values (text par))) →
  traverse values l st = inr (_replace_in_paragraphs l values st).
Proof.
  revert st. induction l as [|i l IH]; intros st Hnd H; [done|].
  apply NoDup_cons in Hnd as [Hi Hnd].
  rewrite for_each_cons. unfold Lib.replace_at, _replace_in_paragraphs.
  simpl. destruct (st !! i) as [par|] eqn:Hpar; simpl.
  - rewrite lib_replace_in_paragraph_stored by (apply (H i); [left|done]).
    simpl. rewrite (alter_lookup_insert _ _ _ _ Hpar). apply IH; [done|].
    intros j par_j Hj Hlook. apply (H j); [by right|].
    rewrite list_lookup_insert_ne in Hlook; [done|]. by intros ->.
  - rewrite alter_lookup_None by done. apply IH; [done|].
    intros j par_j Hj. apply H. by right.
Qed.

Lemma lib_fill_document_stored d values :
  NoDup (reachable d) →
  (∀ p par, p ∈ reachable d → doc_store d !! p = Some par →
     replace_all values (text par) ≠ text par →
     assign (replace_all values (text par))
     = inr (replace_all values (text par))) →
  Lib.fill_document assign d values = inr (fill_document d values).
Proof.
  intros Hnd H. rewrite lib_fill_document_traverse, traverse_stored by done.
  simpl. by rewrite fill_document_with_store, fill_document_store.
Qed.

(** Over a library that stores every string as it is, the traversal is the
    one with [set_text]. *)
Lemma traverse_verbatim values l st :
  (∀ s, assign s = inr s) →
  traverse values l st = inr (_replace_in_paragraphs l values st).
Proof.
  intros Hv. revert st. induction l as [|i l IH]; intros st; [done|].
  rewrite for_each_cons. unfold Lib.replace_at, _replace_in_paragraphs.
  simpl. destruct (st !! i) as [par|] eqn:Hpar; simpl.
  - rewrite lib_replace_in_paragraph_stored by (intros _; apply Hv).
    simpl. rewrite (alter_lookup_insert _ _ _ _ Hpar). apply IH.
  - rewrite alter_lookup_None by done. apply IH.
Qed.

Lemma lib_fill_document_verbatim d values :
  (∀ s, assign s = inr s) →
  Lib.fill_document assign d values = inr (fill_document d values).
Proof.
  intros Hv. rewrite lib_fill_document_traverse, traverse_verbatim by done.
  simpl. by rewrite fill_document_with_store, fill_document_store.
Qed.

End Traversal.

Lemma lib_fill_template_with_values_verbatim {Buffer E}
    (Document : option (Buffer → E + DocxDocument))
    (save : DocxDocument → E + Buffer) template_bytes values :
  Lib.fill_template_with_values inr Document save template_bytes values
  = fill_template_with_values Document save template_bytes values.
Proof.
  unfold Lib.fill_template_with_values, fill_template_with_values.
  destruct Document as [Document|]; [|done].
  destruct (Document template_bytes) as [e|d]; simpl; [done|].
  by rewrite lib_fill_document_verbatim.
Qed.

(** *** [docx_assign] *)

Lemma docx_assign_plain s : plain_text s = true → docx_assign s = inr s.
Proof.
  unfold plain_text, docx_assign. induction s as [|c s IH]; [done|].
  simpl. intros [Hc H]%andb_true_iff. specialize (IH H).
  destruct (N.eqb_spec c 9) as [->|H9]; [simpl; by rewrite IH|].
  destruct (N.eqb_spec c 10) as [->|H10]; [simpl; by rewrite IH|].
  simpl in Hc. destruct (N.eqb_spec c 13) as [->|H13]; [done|].
  apply negb_true_iff, orb_false_iff in Hc as [Hx Hs].
  simpl. unfold piece_error. by rewrite Hs, Hx, IH.
Qed.

(** *** Properties of [Lib.fill_template_with_values] *)

Section LibFilling.
Context {Buffer E : Type}.
Variable assign : str → E + str.
Variable Document : Buffer → E + DocxDocument.
Variable save : DocxDocument → E + Buffer.

Local Abbreviation lib_fill :=
  (Lib.fill_template_with_values assign (Some Document) save).

Lemma lib_fill_returns template_bytes d values output :
  Document template_bytes = inr d →
  lib_fill template_bytes values = Ok output →
  ∃ d', Lib.fill_document assign d values = inr d' ∧ save d' = inr output.
Proof.
  unfold Lib.fill_template_with_values. intros ->. simpl.
  destruct (Lib.fill_document assign d values) as [e|d']; simpl; [done|].
  destruct (save d') as [e|out] eqn:Hs; simpl; [done|].
  intros [= <-]. by exists d'.
Qed.

(** C1. When filling returns an output, the output is the saved document,
    and in it a paragraph in scope that the traversal meets once, and whose
    new text the library stores as it is assigned, has the placeholder of
    every key of the mapping replaced by the value of the key, one key after
    the other in the order of the mapping. On the example of the
    description, the paragraph reads "Hello Ana, your id is 42.". *)
Theorem fill_replaces_placeholders template_bytes d values output p par :
  Document template_bytes = inr d →
  lib_fill template_bytes values = Ok output →
  in_scope d p → visits p d = 1%nat →
  doc_store d !! p = Some par →
  (replace_all values (text par) ≠ text par →
   assign (replace_all values (text par))
   = inr (replace_all values (text par))) →
  ∃ d' par',
    Lib.fill_document assign d values = inr d'
    ∧ save d' = inr output
    ∧ doc_store d' !! p = Some par'
    ∧ filled values (text par) (text par')
    ∧ (values = [(py "name", py "Ana"); (py "id", py "42")] →
       text par = py "Hello {{name}}, your id is {{id}}." →
       text par' = py "Hello Ana, your id is 42.").
Proof.
  intros Hd Hfill _ Hv Hpar Hassign.
  destruct (lib_fill_returns _ _ _ _ Hd Hfill) as (d' & Hd' & Hsave).
  destruct (lib_fill_document_lookup assign _ _ _ p Hd') as [_ Hlook].
  rewrite Hpar, Hv in Hlook. destruct Hlook as (par' & Hpass & Hpar').
  assert (text par' = replace_all values (text par)) as Htext.
  { simpl in Hpass. unfold Lib.replace_in_paragraph in Hpass.
    case_decide as Hsame.
    - simpl in Hpass. injection Hpass as <-. done.
    - unfold Lib.set_text in Hpass. rewrite (Hassign Hsame) in Hpass.
      simpl in Hpass. injection Hpass as <-. unfold text. simpl.
      apply app_nil_r. }
  exists d', par'. repeat split; [done..| |].
  - rewrite Htext. apply filled_replace_all.
  - intros -> Ht. rewrite Htext, Ht. reflexivity.
Qed.

End LibFilling.

(** A template with one paragraph and the mapping of the description, through
    [docx_assign]; the filled document extracts back as the expected text. *)
Lemma fill_replaces_placeholders_witness :
  ∃ d' par',
    Lib.fill_document docx_assign
      (plain_document [py "Hello {{name}}, your id is {{id}}."])
      [(py "name", py "Ana"); (py "id", py "42")] = inr d'
    ∧ doc_store d' !! 0%nat = Some par'
    ∧ text par' = py "Hello Ana, your id is 42."
    ∧ extract_text (E := docx_error) (Some inr) None id d' (py "docx")
      = Ok (py "Hello Ana, your id is 42.").
Proof.
  destruct (fill_replaces_placeholders docx_assign inr inr
              (plain_document [py "Hello {{name}}, your id is {{id}}."])
              (plain_document [py "Hello {{name}}, your id is {{id}}."])
              [(py "name", py "Ana"); (py "id", py "42")]
              (plain_document [py "Hello Ana, your id is 42."]) 0%nat
              {| runs := [py "Hello {{name}}, your id is {{id}}."] |})
    as (d' & par' & Hd' & Hsave & Hpar' & _ & Htext).
  - reflexivity.
  - reflexivity.
  - left. vm_compute. left.
  - reflexivity.
  - reflexivity.
  - intros _. reflexivity.
  - exists d', par'. repeat split; [done..|apply Htext; reflexivity|].
    injection Hsave as ->. reflexivity.
Defined.

(** Three templates on which a paragraph in scope does not end up with the
    placeholders replaced by the values: the cell of a merged range, which
    the row lists twice, gets a second pass over the value just put in; a
    value with a control character, as [parse_key_values] may return it, is
    refused by the library, and nothing is saved; a carriage return in a
    value is stored as a line break. *)
Lemma fill_replaces_placeholders_unmet :
  (Lib.fill_template_with_values docx_assign (Some inr) inr
     (merged_cell_document (py "{{a}}")) [(py "a", py "{{a}}!")]
   = Ok (merged_cell_document (py "{{a}}!!"))
   ∧ ¬ filled [(py "a", py "{{a}}!")] (py "{{a}}") (py "{{a}}!!"))
  ∧ (parse_key_values (py "k: a" ++ [31] ++ py "b")
     = [(py "k", py "a" ++ [31] ++ py "b")]
     ∧ Lib.fill_template_with_values docx_assign (Some inr) inr
         (plain_document [py "x{{k}}y"]) [(py "k", py "a" ++ [31] ++ py "b")]
       = Raise (LibraryError NotXMLCompatible))
  ∧ (Lib.fill_template_with_values docx_assign (Some inr) inr
       (plain_document [py "x{{k}}y"]) [(py "k", py "a" ++ [13] ++ py "b")]
     = Ok (plain_document [py "xa" ++ [10] ++ py "by"])
     ∧ ¬ filled [(py "k", py "a" ++ [13] ++ py "b")] (py "x{{k}}y")
           (py "xa" ++ [10] ++ py "by")).
Proof.
  repeat split; try reflexivity.
  - intros H%filled_unique. vm_compute in H. discriminate.
  - intros H%filled_unique. vm_compute in H. discriminate.
Qed.

(** ** Trimming *)

Lemma lstrip_app a b :
  lstrip (a ++ b) = match lstrip a with [] => lstrip b | r => r ++ b end.
Proof.
  induction a as [|c a IH]; simpl; [done|]. by destruct (isspace c).
Qed.

Lemma rstrip_cons c s :
  rstrip (c :: s)
  = match rstrip s with
    | [] => if isspace c then [] else [c]
    | r => c :: r
    end.
Proof.
  unfold rstrip. simpl. rewrite lstrip_app.
  destruct (lstrip (rev s)) as [|x r].
  - simpl. destruct (isspace c); reflexivity.
  - rewrite rev_app_distr. simpl.
    destruct (rev r ++ [x]) as [|y t] eqn:E; [|reflexivity].
    by destruct (rev r).
Qed.

Lemma lstrip_idem s : lstrip (lstrip s) = lstrip s.
Proof.
  induction s as [|c s IH]; simpl; [done|].
  destruct (isspace c) eqn:Hc; [done|]. simpl. by rewrite Hc.
Qed.

Lemma rstrip_idem s : rstrip (rstrip s) = rstrip s.
Proof. unfold rstrip. by rewrite rev_involutive, lstrip_idem. Qed.

Lemma lstrip_head c s : isspace c = false → lstrip (c :: s) = c :: s.
Proof. intros H. simpl. by rewrite H. Qed.

Lemma lstrip_rstrip s : lstrip (rstrip s) = rstrip (lstrip s).
Proof.
  induction s as [|c s IH]; [done|].
  rewrite rstrip_cons. simpl lstrip at 2.
  destruct (isspace c) eqn:Hc.
  - rewrite <-IH. destruct (rstrip s) as [|x r]; [done|].
    simpl. by rewrite Hc.
  - rewrite rstrip_cons, Hc. destruct (rstrip s); by rewrite lstrip_head.
Qed.

Lemma strip_lstrip s : strip (lstrip s) = strip s.
Proof. unfold strip. by rewrite lstrip_idem. Qed.

Lemma strip_rstrip s : strip (rstrip s) = strip s.
Proof. unfold strip. by rewrite lstrip_rstrip, rstrip_idem. Qed.

(** ** Colons *)

Lemma isspace_colon c : isspace c = true → (c =? 58) = false.
Proof.
  intros H. apply N.eqb_neq. intros ->. vm_compute in H. discriminate.
Qed.

Lemma find_colon s :
  find s (py ":")
  = if has_colon s then Some (length (before_colon s)) else None.
Proof.
  induction s as [|c s IH]; [reflexivity|].
  change (py ":") with [58] in *. cbn [find startswith has_colon existsb before_colon].
  rewrite andb_true_r. destruct (c =? 58); [done|].
  rewrite IH. fold (has_colon s). destruct (has_colon s); reflexivity.
Qed.

Lemma take_before_colon s : take (length (before_colon s)) s = before_colon s.
Proof.
  induction s as [|c s IH]; [done|]. simpl.
  destruct (c =? 58); [done|]. simpl. by rewrite IH.
Qed.

Lemma drop_after_colon s :
  has_colon s = true →
  drop (length (before_colon s) + 1) s = after_colon s.
Proof.
  induction s as [|c s IH]; [done|]. simpl.
  destruct (c =? 58); [done|]. simpl. apply IH.
Qed.

Lemma str_in_colon s : str_in (py ":") s = has_colon s.
Proof. unfold str_in. rewrite find_colon. by destruct (has_colon s). Qed.

Lemma split1_colon s :
  has_colon s = true →
  split1 s (py ":") = [before_colon s; after_colon s].
Proof.
  intros H. unfold split1. rewrite find_colon, H.
  change (length (py ":")) with 1%nat.
  by rewrite take_before_colon, drop_after_colon.
Qed.

Lemma has_colon_lstrip s : has_colon (lstrip s) = has_colon s.
Proof.
  induction s as [|c s IH]; [done|]. simpl.
  destruct (isspace c) eqn:Hc; [|done]. by rewrite (isspace_colon c).
Qed.

Lemma before_colon_lstrip s : before_colon (lstrip s) = lstrip (before_colon s).
Proof.
  induction s as [|c s IH]; [done|]. simpl.
  destruct (isspace c) eqn:Hc.
  - rewrite (isspace_colon c) by done. simpl. by rewrite Hc.
  - simpl. destruct (c =? 58); [done|]. simpl. by rewrite Hc.
Qed.

Lemma after_colon_lstrip s : after_colon (lstrip s) = after_colon s.
Proof.
  induction s as [|c s IH]; [done|]. simpl.
  destruct (isspace c) eqn:Hc; [|done]. by rewrite (isspace_colon c).
Qed.

Lemma colon_rstrip s :
  has_colon s = true →
  has_colon (rstrip s) = true
  ∧ before_colon (rstrip s) = before_colon s
  ∧ after_colon (rstrip s) = rstrip (after_colon s).
Proof.
  induction s as [|c s IH]; [done|]. rewrite rstrip_cons. simpl.
  destruct (c =? 58) eqn:Hc; simpl.
  - intros _. assert (isspace c = false) as Hs.
    { destruct (isspace c) eqn:Hs; [|done].
      apply isspace_colon in Hs. congruence. }
    rewrite Hs. destruct (rstrip s); simpl; by rewrite Hc.
  - intros H. destruct (IH H) as (H1 & H2 & H3).
    destruct (rstrip s) as [|x r] eqn:Hr; [done|].
    simpl in *. by rewrite Hc, H1, H2, H3.
Qed.

Lemma colon_strip s :
  has_colon s = true →
  has_colon (strip s) = true
  ∧ strip (before_colon (strip s)) = strip (before_colon s)
  ∧ strip (after_colon (strip s)) = strip (after_colon s).
Proof.
  intros H. change (strip s) with (rstrip (lstrip s)).
  destruct (colon_rstrip (lstrip s)) as (H1 & H2 & H3).
  { by rewrite has_colon_lstrip. }
  rewrite H1, H2, H3, before_colon_lstrip, after_colon_lstrip.
  by rewrite strip_lstrip, strip_rstrip.
Qed.

Lemma has_colon_strip s : has_colon (strip s) = has_colon s.
Proof.
  destruct (has_colon s) eqn:H; [by apply colon_strip|].
  apply not_true_iff_false. intros Hs. apply not_true_iff_false in H. apply H.
  unfold has_colon in *. rewrite existsb_exists in Hs |- *.
  destruct Hs as (c & Hin & Hc). exists c. split; [|done].
  unfold strip, rstrip in Hin. apply in_rev in Hin.
  assert (∀ t, In c (lstrip t) → In c t) as Hl.
  { clear. intros t. induction t as [|x t IH]; simpl; [done|].
    destruct (isspace x); [auto|done]. }
  apply Hl, in_rev, Hl in Hin. done.
Qed.

(** ** One line of [parse_key_values] *)

Lemma parse_line_spec pairs line :
  parse_line pairs line
  = if ignored line then pairs
    else dict_set pairs (line_pair line).1 (line_pair line).2.
Proof.
  unfold parse_line, ignored, line_pair.
  destruct (negb (truthy (strip line)) || startswith (strip line) (py "#"));
    [done|].
  rewrite str_in_colon, has_colon_strip. simpl.
  destruct (has_colon line) eqn:Hc; [|done]. simpl.
  destruct (colon_strip line Hc) as (H1 & H2 & H3).
  rewrite split1_colon, H2, H3 by done.
  by destruct (truthy (strip (before_colon line))).
Qed.

(** ** Dicts *)

Lemma dict_get_set_eq d k v : dict_get (dict_set d k v) k = Some v.
Proof.
  induction d as [|[k' v'] d IH]; simpl.
  - by rewrite decide_True.
  - case_decide as Hk; simpl.
    + by rewrite decide_True.
    + by rewrite decide_False.
Qed.

Lemma dict_get_set_ne d k k' v :
  k ≠ k' → dict_get (dict_set d k v) k' = dict_get d k'.
Proof.
  intros Hne. induction d as [|[k2 v2] d IH]; simpl.
  - by rewrite decide_False.
  - case_decide as Hk; simpl.
    + subst k2. by rewrite !decide_False.
    + case_decide; [done|apply IH].
Qed.

Lemma dict_get_set d k v k' :
  dict_get (dict_set d k v) k'
  = if decide (k = k') then Some v else dict_get d k'.
Proof.
  case_decide as H; [subst; apply dict_get_set_eq|by apply dict_get_set_ne].
Qed.

Lemma dict_get_foldl_Some pairs d k v :
  dict_get (foldl set_pair d pairs) k = Some v →
  dict_get d k = Some v ∨ (k, v) ∈ pairs.
Proof.
  revert d. induction pairs as [|[k' v'] pairs IH]; intros d; simpl.
  - by left.
  - intros [H|H]%IH.
    + unfold set_pair in H. simpl in H. rewrite dict_get_set in H.
      case_decide as Hk; [|by left].
      injection H as ->. subst k'. right. left.
    + right. by right.
Qed.

Lemma dict_get_foldl_is_Some pairs d k :
  is_Some (dict_get d k) ∨ k ∈ pairs.*1 →
  is_Some (dict_get (foldl set_pair d pairs) k).
Proof.
  revert d. induction pairs as [|[k' v'] pairs IH]; intros d; simpl.
  - intros [H|H]; [done|by apply elem_of_nil in H].
  - intros H. apply IH. unfold set_pair. simpl. rewrite dict_get_set.
    case_decide as Hk; [by left|].
    destruct H as [H|H]; [by left|].
    apply elem_of_cons in H as [->|H]; [done|by right].
Qed.

(** ** The loop of [parse_key_values] *)

Lemma parse_lines_valid_pairs lines d :
  foldl parse_line d lines = foldl set_pair d (valid_pairs lines).
Proof.
  revert d. unfold valid_pairs.
  induction lines as [|l lines IH]; intros d; [done|].
  rewrite filter_cons. simpl foldl at 1. rewrite IH, parse_line_spec.
  case_decide as Hl; [by rewrite Hl|].
  by destruct (ignored l).
Qed.

Lemma parse_lines_keep lines d k v :
  dict_get d k = Some v →
  (∀ l, l ∈ lines → ignored l = false → (line_pair l).1 ≠ k) →
  dict_get (foldl parse_line d lines) k = Some v.
Proof.
  revert d. induction lines as [|l lines IH]; intros d Hd Hl; [done|].
  simpl. apply IH.
  - rewrite parse_line_spec. destruct (ignored l) eqn:Hi; [done|].
    rewrite dict_get_set_ne; [done|]. apply Hl; [left|done].
  - intros l' Hin. apply Hl. by right.
Qed.

Lemma splitlines_from_one_line cur s :
  one_line s = true →
  splitlines_from cur s = match rev cur ++ s with [] => [] | l => [l] end.
Proof.
  revert cur. induction s as [|c s IH]; intros cur Hs.
  - simpl. rewrite app_nil_r. destruct cur as [|x cur]; [done|].
    simpl. by destruct (rev cur).
  - simpl in Hs. apply andb_true_iff in Hs as [Hc Hs].
    apply negb_true_iff in Hc. simpl. rewrite Hc, IH by done.
    simpl. by rewrite <-app_assoc.
Qed.

Lemma splitlines_one_line s :
  one_line s = true → s ≠ [] → splitlines s = [s].
Proof.
  intros Hs Hne. unfold splitlines. rewrite splitlines_from_one_line by done.
  simpl. by destruct s.
Qed.

Lemma has_colon_nonempty s : has_colon s = true → s ≠ [].
Proof. by intros H ->. Qed.

Lemma truthy_nonempty s : truthy s = true ↔ s ≠ [].
Proof. by destruct s. Qed.

(** ** Properties of [parse_key_values] *)

(** C4, as the program has it.  A line with a colon, a non-empty trimmed
    key and a trimmed form that does not start with [#] yields the one pair
    of its trimmed key, taken before the first colon, and its trimmed
    value, taken after it. *)
Theorem parse_splits_at_first_colon line :
  one_line line = true → has_colon line = true →
  strip (before_colon line) ≠ [] →
  startswith (strip line) (py "#") = false →
  parse_key_values line
  = [(strip (before_colon line), strip (after_colon line))]
  ∧ parse_key_values (py "key : value with: colon")
    = [(py "key", py "value with: colon")].
Proof.
  intros Hone Hcolon Hkey Hcomment. split; [|reflexivity].
  unfold parse_key_values.
  rewrite splitlines_one_line by (done || by apply has_colon_nonempty).
  simpl. rewrite parse_line_spec. unfold ignored.
  rewrite Hcomment, Hcolon.
  apply truthy_nonempty in Hkey. rewrite Hkey.
  assert (truthy (strip line) = true) as ->; [|done].
  apply truthy_nonempty, has_colon_nonempty. by rewrite has_colon_strip.
Qed.

Lemma parse_splits_at_first_colon_witness :
  parse_key_values (py "k: v :w") = [(py "k", py "v :w")].
Proof.
  destruct (parse_splits_at_first_colon (py "k: v :w")) as [H _];
    [reflexivity..|by vm_compute|reflexivity|].
  rewrite H. reflexivity.
Defined.

(** C4 as worded fails on a comment line that has a colon: it has a
    non-empty trimmed key and still yields no pair. *)
Lemma parse_comment_with_colon :
  one_line (py "#a: b") = true
  ∧ has_colon (py "#a: b") = true
  ∧ strip (before_colon (py "#a: b")) = py "#a"
  ∧ strip (after_colon (py "#a: b")) = py "b"
  ∧ parse_key_values (py "#a: b") = []
  ∧ dict_get (parse_key_values (py "#a: b")) (py "#a") = None.
Proof. by vm_compute. Qed.

(** C5. The value of a key is the one of the last line, among those that
    yield a pair, that has this key; "a:1" followed by "a:2" gives a = 2. *)
Theorem parse_last_wins raw_text before line after :
  splitlines raw_text = before ++ line :: after →
  ignored line = false →
  (∀ l, l ∈ after → ignored l = false →
     (line_pair l).1 ≠ (line_pair line).1) →
  dict_get (parse_key_values raw_text) (line_pair line).1
  = Some (line_pair line).2
  ∧ parse_key_values (py "a:1" ++ LF ++ py "a:2") = [(py "a", py "2")].
Proof.
  intros Hl Hi Hafter. split; [|reflexivity].
  unfold parse_key_values. rewrite Hl, foldl_app. simpl.
  apply parse_lines_keep; [|done].
  rewrite parse_line_spec, Hi. apply dict_get_set_eq.
Qed.

Lemma parse_last_wins_witness :
  dict_get (parse_key_values (py "a:1" ++ LF ++ py "a:2" ++ LF ++ py "b:3"))
    (py "a") = Some (py "2").
Proof.
  destruct (parse_last_wins (py "a:1" ++ LF ++ py "a:2" ++ LF ++ py "b:3")
              [py "a:1"] (py "a:2") [py "b:3"]) as [H _].
  - reflexivity.
  - reflexivity.
  - intros l Hin _. apply list_elem_of_In in Hin. simpl in Hin.
    destruct Hin as [<-|[]]. by vm_compute.
  - exact H.
Defined.

(** C6. The result is made of the pairs of the lines that are not ignored,
    assigned in the order of the lines: every entry comes from such a
    line, every such line has its key in the result, and an ignored line
    can be taken out of the text without changing the result.  The line
    ": value" alone gives the empty mapping. *)
Theorem parse_exactly_valid_pairs raw_text :
  parse_key_values raw_text = dict_of_pairs (valid_pairs (splitlines raw_text))
  ∧ (∀ k v, dict_get (parse_key_values raw_text) k = Some v →
       ∃ line, line ∈ splitlines raw_text ∧ ignored line = false
               ∧ line_pair line = (k, v))
  ∧ (∀ line, line ∈ splitlines raw_text → ignored line = false →
       is_Some (dict_get (parse_key_values raw_text) (line_pair line).1))
  ∧ (∀ before line after,
       splitlines raw_text = before ++ line :: after → ignored line = true →
       parse_key_values raw_text = foldl parse_line [] (before ++ after))
  ∧ parse_key_values (py ": value") = [].
Proof.
  unfold parse_key_values. split_and!.
  - apply parse_lines_valid_pairs.
  - intros k v. rewrite parse_lines_valid_pairs.
    intros [H|H]%dict_get_foldl_Some; [done|].
    unfold valid_pairs in H. apply list_elem_of_fmap in H as (l & Hl & Hin).
    apply list_elem_of_filter in Hin as [Hi Hin]. by exists l.
  - intros l Hin Hi. rewrite parse_lines_valid_pairs.
    apply dict_get_foldl_is_Some. right. unfold valid_pairs.
    rewrite <-list_fmap_compose. apply list_elem_of_fmap. exists l.
    split; [done|]. by apply list_elem_of_filter.
  - intros before line after -> Hi. rewrite !foldl_app. simpl.
    by rewrite parse_line_spec, Hi.
  - reflexivity.
Qed.

(** ** Properties of [extract_text] *)

Lemma collect_cells st cs ps :
  foldl (λ ps cell, ps ++ [cell_text st cell]) ps cs
  = ps ++ map (cell_text st) cs.
Proof.
  revert ps. induction cs as [|c cs IH]; intros ps; simpl.
  - by rewrite app_nil_r.
  - by rewrite IH, <-app_assoc.
Qed.

Lemma collect_rows st rs ps :
  foldl (λ ps row,
    foldl (λ ps cell, ps ++ [cell_text st cell]) ps (cells row)) ps rs
  = ps ++ map (cell_text st) (r ← rs; cells r).
Proof.
  revert ps. induction rs as [|r rs IH]; intros ps; simpl.
  - by rewrite app_nil_r.
  - by rewrite IH, collect_cells, map_app, <-app_assoc.
Qed.

Lemma collect_tables st ts ps :
  foldl (λ ps table,
    foldl (λ ps row,
      foldl (λ ps cell, ps ++ [cell_text st cell]) ps (cells row))
      ps (rows table)) ps ts
  = ps ++ map (cell_text st) (t ← ts; table_cells t).
Proof.
  revert ps. induction ts as [|t ts IH]; intros ps; simpl.
  - by rewrite app_nil_r.
  - by rewrite IH, collect_rows, map_app, <-app_assoc.
Qed.

Lemma docx_text_spec d :
  docx_text d
  = join LF (filter (λ s, s ≠ [])
      (map (text_at (doc_store d)) (doc_paragraphs d)
       ++ map (cell_text (doc_store d)) (t ← doc_tables d; table_cells t))).
Proof.
  unfold docx_text. rewrite collect_tables. f_equal.
  apply list_filter_iff. intros s. apply truthy_nonempty.
Qed.

Lemma lower_docx ul : lower ul (py "docx") = py "docx".
Proof. reflexivity. Qed.

Lemma lower_pdf ul : lower ul (py "pdf") = py "pdf".
Proof. reflexivity. Qed.

(** C8. From a buffer that the library reads as the document [d], the
    extraction gives the texts of the body paragraphs followed by the texts
    of the cells of the tables, row by row, without the empty ones, one per
    line.  A paragraph "A" and a table with the single cell "B" give "A"
    and "B" on two lines. *)
Theorem extract_docx_paragraphs_then_cells {Buffer E : Type}
    (Document : Buffer → E + DocxDocument)
    (PyPDF2 : option (Buffer → E + list (option str)))
    (unicode_lower : str → str) (file_buffer : Buffer) (extension : str)
    (d : DocxDocument) :
  lower unicode_lower extension = py "docx" →
  Document file_buffer = inr d →
  extract_text (Some Document) PyPDF2 unicode_lower file_buffer extension
  = Ok (join LF (filter (λ s, s ≠ [])
          (map (text_at (doc_store d)) (doc_paragraphs d)
           ++ map (cell_text (doc_store d))
                (t ← doc_tables d; r ← rows t; cells r))))
  ∧ (d = paragraph_and_cell (py "A") (py "B") →
     extract_text (Some Document) PyPDF2 unicode_lower file_buffer extension
     = Ok (py "A" ++ LF ++ py "B")).
Proof.
  intros Hext Hd.
  assert (extract_text (Some Document) PyPDF2 unicode_lower file_buffer
            extension = Ok (docx_text d)) as ->.
  { unfold extract_text. rewrite Hext, decide_True by done.
    by rewrite Hd. }
  split; [by rewrite docx_text_spec|]. by intros ->.
Qed.

Lemma extract_docx_paragraphs_then_cells_witness :
  extract_text (E := unit) (Some inr) None id
    (paragraph_and_cell (py "A") (py "B")) (py "DOCX")
  = Ok (py "A" ++ LF ++ py "B").
Proof.
  destruct (extract_docx_paragraphs_then_cells (E := unit) inr None id
              (paragraph_and_cell (py "A") (py "B")) (py "DOCX")
              (paragraph_and_cell (py "A") (py "B")))
    as [_ H]; [reflexivity..|].
  apply H. reflexivity.
Defined.

(** C9. An extension whose lower-case form is neither "docx" nor "pdf" is
    refused with the error of the unsupported type, whatever the buffer and
    whatever libraries are installed; "xlsx" is refused, while "DOCX" and
    "Pdf" are treated as "docx" and "pdf" and are not refused. *)
Theorem extract_unsupported_extension {Buffer E : Type}
    (Document : option (Buffer → E + DocxDocument))
    (PyPDF2 : option (Buffer → E + list (option str)))
    (unicode_lower : str → str) (file_buffer : Buffer) (extension : str) :
  lower unicode_lower extension ≠ py "docx" →
  lower unicode_lower extension ≠ py "pdf" →
  extract_text Document PyPDF2 unicode_lower file_buffer extension
  = Raise (ValueError "Tipo de arquivo nao suportado.")
  ∧ extract_text Document PyPDF2 unicode_lower file_buffer (py "xlsx")
    = Raise (ValueError "Tipo de arquivo nao suportado.")
  ∧ extract_text Document PyPDF2 unicode_lower file_buffer (py "DOCX")
    = extract_text Document PyPDF2 unicode_lower file_buffer (py "docx")
  ∧ extract_text Document PyPDF2 unicode_lower file_buffer (py "Pdf")
    = extract_text Document PyPDF2 unicode_lower file_buffer (py "pdf")
  ∧ (∀ msg,
       extract_text Document PyPDF2 unicode_lower file_buffer (py "docx")
       ≠ Raise (ValueError msg))
  ∧ (∀ msg,
       extract_text Document PyPDF2 unicode_lower file_buffer (py "pdf")
       ≠ Raise (ValueError msg)).
Proof.
  intros Hdocx Hpdf. split_and!.
  - unfold extract_text. by rewrite !decide_False.
  - reflexivity.
  - reflexivity.
  - reflexivity.
  - intros msg. unfold extract_text. rewrite lower_docx, decide_True by done.
    destruct Document as [open|]; [|done].
    by destruct (open file_buffer).
  - intros msg. unfold extract_text. rewrite lower_pdf.
    rewrite decide_False by (by vm_compute). rewrite decide_True by done.
    destruct PyPDF2 as [open|]; [|done].
    by destruct (open file_buffer).
Qed.

Lemma extract_unsupported_extension_witness :
  extract_text (Buffer := unit) (E := unit) None None id tt (py "odt")
  = Raise (ValueError "Tipo de arquivo nao suportado.").
Proof.
  destruct (extract_unsupported_extension (Buffer := unit) (E := unit)
              None None id tt (py "odt")) as [H _].
  - by vm_compute.
  - by vm_compute.
  - exact H.
Defined.

(** * Further properties *)

(** ** Trimmed strings *)

Lemma strip_idem s : strip (strip s) = strip s.
Proof. unfold strip. by rewrite lstrip_rstrip, lstrip_idem, rstrip_idem. Qed.

Lemma lstrip_spaces ws s :
  forallb isspace ws = true → lstrip (ws ++ s) = lstrip s.
Proof.
  induction ws as [|c ws IH]; [done|]. simpl.
  intros [Hc Hws]%andb_true_iff. rewrite Hc. by apply IH.
Qed.

Lemma rstrip_spaces ws s :
  forallb isspace ws = true → rstrip (s ++ ws) = rstrip s.
Proof.
  intros H. unfold rstrip. rewrite rev_app_distr, lstrip_spaces; [done|].
  rewrite forallb_forall in H |- *. intros c Hc. by apply H, in_rev.
Qed.

Lemma strip_spaces ws1 ws2 s :
  forallb isspace ws1 = true → forallb isspace ws2 = true →
  strip (ws1 ++ s ++ ws2) = strip s.
Proof.
  intros H1 H2. unfold strip. rewrite lstrip_spaces by done.
  rewrite <-!lstrip_rstrip. by rewrite rstrip_spaces.
Qed.

Lemma lstrip_sub c s : c ∈ lstrip s → c ∈ s.
Proof.
  induction s as [|x s IH]; simpl; [done|].
  destruct (isspace x); [|done]. intros H. right. by apply IH.
Qed.

Lemma strip_sub c s : c ∈ strip s → c ∈ s.
Proof.
  unfold strip, rstrip. intros H.
  apply list_elem_of_In, in_rev, list_elem_of_In, lstrip_sub in H.
  apply list_elem_of_In, in_rev, list_elem_of_In in H. by apply lstrip_sub.
Qed.

Lemma lstrip_first c s t : lstrip s = c :: t → isspace c = false.
Proof.
  induction s as [|x s IH]; simpl; [done|].
  destruct (isspace x) eqn:Hx; [done|]. by intros [= <- _].
Qed.

Lemma strip_first c s t : strip s = c :: t → isspace c = false.
Proof.
  unfold strip. rewrite <-lstrip_rstrip. apply lstrip_first.
Qed.

Lemma before_colon_sub c s : c ∈ before_colon s → c ∈ s ∧ c ≠ 58.
Proof.
  induction s as [|x s IH]; simpl; [by intros ?%elem_of_nil|].
  destruct (x =? 58) eqn:Hx; [by intros ?%elem_of_nil|].
  apply N.eqb_neq in Hx. intros [->|H]%elem_of_cons.
  - split; [left|done].
  - destruct (IH H). split; [by right|done].
Qed.

Lemma after_colon_sub c s : c ∈ after_colon s → c ∈ s.
Proof.
  induction s as [|x s IH]; simpl; [done|].
  destruct (x =? 58); intros H; right; [done|by apply IH].
Qed.

Lemma has_colon_false s : has_colon s = false ↔ 58 ∉ s.
Proof.
  unfold has_colon. rewrite <-not_true_iff_false, existsb_exists. split.
  - intros H Hin. apply H. exists 58. split; [by apply list_elem_of_In|done].
  - intros H (c & Hin & Hc). apply N.eqb_eq in Hc. subst c.
    by apply H, list_elem_of_In.
Qed.

Lemma one_line_sub s t :
  (∀ c, c ∈ s → c ∈ t) → one_line t = true → one_line s = true.
Proof.
  unfold one_line. rewrite !forallb_forall. intros Hsub Ht c Hc.
  apply Ht, list_elem_of_In, Hsub. by apply list_elem_of_In.
Qed.

(** ** Lines *)

Lemma splitlines_from_cons cur c s :
  splitlines_from cur (c :: s)
  = if islinebreak c then rev cur :: splitlines_from [] (after_break c s)
    else splitlines_from (c :: cur) s.
Proof.
  simpl. destruct (islinebreak c); [|done]. f_equal.
  destruct s as [|c' s]; [done|]. simpl. by destruct ((c =? 13) && (c' =? 10)).
Qed.

Lemma after_break_length c s : (length (after_break c s) ≤ length s)%nat.
Proof.
  destruct s as [|c' s]; simpl; [done|].
  destruct ((c =? 13) && (c' =? 10)); simpl; lia.
Qed.

(** No line holds a line boundary. *)
Lemma splitlines_from_lines cur' s l :
  one_line cur' = true → l ∈ splitlines_from cur' s → one_line l = true.
Proof.
  remember (length s) as n eqn:Hn. revert s cur' Hn.
  induction n as [n IH] using lt_wf_ind. intros [|c s] cur Hn Hcur.
  - simpl. destruct cur as [|x cur]; [by intros ?%elem_of_nil|].
    intros ->%list_elem_of_singleton.
    apply (one_line_sub _ (x :: cur)); [|done].
    intros y Hy. by apply list_elem_of_In, in_rev, list_elem_of_In in Hy.
  - rewrite splitlines_from_cons. destruct (islinebreak c) eqn:Hc.
    + intros [->|Hl]%elem_of_cons.
      * apply (one_line_sub _ cur); [|done].
        intros y Hy. by apply list_elem_of_In, in_rev, list_elem_of_In in Hy.
      * apply (IH (length (after_break c s))) in Hl; [done| |done..].
        pose proof (after_break_length c s). subst n. simpl. lia.
    + apply (IH (length s)); [subst n; simpl; lia|done|].
      simpl. by rewrite Hc.
Qed.

Lemma splitlines_one_line_each s l : l ∈ splitlines s → one_line l = true.
Proof. by apply splitlines_from_lines. Qed.

(** ** What [parse_key_values] returns *)

Lemma dict_set_keys d k v :
  (dict_set d k v).*1 = if decide (k ∈ d.*1) then d.*1 else d.*1 ++ [k].
Proof.
  induction d as [|[k' v'] d IH].
  - case_decide as H; [by apply elem_of_nil in H|done].
  - cbn [dict_set]. destruct (decide (k' = k)) as [->|Hne].
    + rewrite decide_True; [done|]. rewrite fmap_cons. left.
    + rewrite !fmap_cons, IH. simpl.
      destruct (decide (k ∈ d.*1)) as [Hin|Hin].
      * rewrite decide_True; [done|by right].
      * rewrite decide_False; [done|].
        intros [->|?]%elem_of_cons; done.
Qed.

Lemma dict_set_NoDup d k v : NoDup d.*1 → NoDup (dict_set d k v).*1.
Proof.
  intros H. rewrite dict_set_keys. case_decide as Hin; [done|].
  apply NoDup_app. split_and!; [done| |apply NoDup_singleton].
  intros x Hx ->%list_elem_of_singleton. done.
Qed.

Lemma parse_lines_NoDup lines d :
  NoDup d.*1 → NoDup (foldl parse_line d lines).*1.
Proof.
  revert d. induction lines as [|l lines IH]; intros d Hd; [done|].
  simpl. apply IH. rewrite parse_line_spec.
  destruct (ignored l); [done|]. by apply dict_set_NoDup.
Qed.

Lemma ignored_false line :
  ignored line = false →
  strip line ≠ [] ∧ startswith (strip line) (py "#") = false
  ∧ has_colon line = true ∧ strip (before_colon line) ≠ [].
Proof.
  unfold ignored. rewrite !orb_false_iff, !negb_false_iff.
  intros [[[H1 H2] H3] H4]. by rewrite <-!truthy_nonempty.
Qed.

Lemma key_not_comment line :
  ignored line = false → startswith (line_pair line).1 (py "#") = false.
Proof.
  intros (Ht & Hc & Hcolon & Hkey)%ignored_false.
  change (py "#") with [35] in *. cbn [line_pair fst].
  destruct (colon_strip line Hcolon) as (_ & Hk & _).
  rewrite <-Hk in Hkey |- *.
  destruct (strip line) as [|c0 t] eqn:Hline; [done|].
  pose proof (strip_first _ _ _ Hline) as Hspace.
  cbn [startswith] in Hc. rewrite andb_true_r in Hc.
  cbn [before_colon] in *. destruct (c0 =? 58); [done|].
  unfold strip. rewrite lstrip_head by done. rewrite rstrip_cons, Hspace.
  destruct (rstrip (before_colon t)); cbn [startswith]; by rewrite Hc.
Qed.

Lemma line_pair_valid line :
  one_line line = true → ignored line = false →
  (line_pair line).1 ≠ []
  ∧ trimmed (line_pair line).1 ∧ trimmed (line_pair line).2
  ∧ has_colon (line_pair line).1 = false
  ∧ startswith (line_pair line).1 (py "#") = false
  ∧ one_line (line_pair line).1 = true ∧ one_line (line_pair line).2 = true.
Proof.
  intros Hone Hi. pose proof (key_not_comment line Hi) as Hcomment.
  apply ignored_false in Hi as (_ & _ & _ & Hkey). simpl in *.
  split_and!; [done|apply strip_idem..| |done| |].
  - apply has_colon_false. intros H%strip_sub%before_colon_sub. by destruct H.
  - apply (one_line_sub _ line); [|done].
    intros c H%strip_sub%before_colon_sub. by destruct H.
  - apply (one_line_sub _ line); [|done].
    by intros c H%strip_sub%after_colon_sub.
Qed.

Lemma parse_entry_line raw_text k v :
  dict_get (parse_key_values raw_text) k = Some v →
  ∃ line, line ∈ splitlines raw_text ∧ ignored line = false
          ∧ line_pair line = (k, v).
Proof.
  unfold parse_key_values. rewrite parse_lines_valid_pairs.
  intros [H|H]%dict_get_foldl_Some; [done|].
  unfold valid_pairs in H. apply list_elem_of_fmap in H as (l & Hl & Hin).
  apply list_elem_of_filter in Hin as [Hi Hin]. by exists l.
Qed.

(** X1. The mapping that is returned has no key twice; every key is
    non-empty, trimmed, free of colons, does not start with [#] and holds no
    line boundary; every value is trimmed and holds no line boundary. *)
Theorem parse_entries_well_formed raw_text :
  NoDup (parse_key_values raw_text).*1
  ∧ ∀ k v, (k, v) ∈ parse_key_values raw_text →
      k ≠ [] ∧ trimmed k ∧ trimmed v
      ∧ has_colon k = false ∧ startswith k (py "#") = false
      ∧ one_line k = true ∧ one_line v = true.
Proof.
  assert (NoDup (parse_key_values raw_text).*1) as Hnd.
  { apply parse_lines_NoDup. apply NoDup_nil_2. }
  split; [done|]. intros k v Hkv.
  apply dict_get_Some in Hkv; [|done].
  apply parse_entry_line in Hkv as (line & Hin & Hi & Hpair).
  pose proof (line_pair_valid line (splitlines_one_line_each _ _ Hin) Hi) as H.
  by rewrite Hpair in H.
Qed.

(** X2. Whitespace around a line does not count: the line indented or
    followed by blanks is read as the line itself. *)
Theorem parse_line_surrounding_whitespace pairs ws1 line ws2 :
  forallb isspace ws1 = true → forallb isspace ws2 = true →
  parse_line pairs (ws1 ++ line ++ ws2) = parse_line pairs line.
Proof.
  intros H1 H2. unfold parse_line. by rewrite strip_spaces.
Qed.

Lemma parse_line_surrounding_whitespace_witness :
  parse_line [] ([32; 9] ++ py "a : b" ++ [32; 160])
  = [(py "a", py "b")].
Proof.
  rewrite (parse_line_surrounding_whitespace [] [32; 9] (py "a : b") [32; 160]);
    reflexivity.
Defined.

(** ** Texts put together *)

Lemma parse_lines_after_newline a b :
  ∀ cur d,
    foldl parse_line d (splitlines_from cur (a ++ LF ++ b))
    = foldl parse_line (foldl parse_line d (splitlines_from cur a))
        (splitlines b).
Proof.
  remember (length a) as n eqn:Hn. revert a Hn.
  induction n as [n IH] using lt_wf_ind. intros [|c a] Hn cur d.
  - change ([] ++ LF ++ b) with (10 :: b). rewrite splitlines_from_cons.
    change (islinebreak 10) with true. cbn iota.
    assert (after_break 10 b = b) as -> by (by destruct b).
    simpl. destruct cur as [|x cur]; [done|]. simpl. done.
  - change ((c :: a) ++ LF ++ b) with (c :: (a ++ LF ++ b)).
    rewrite !splitlines_from_cons. destruct (islinebreak c) eqn:Hc.
    + cbn [foldl]. generalize (parse_line d (rev cur)). intros d'.
      destruct a as [|c' a].
      * change ([] ++ LF ++ b) with (10 :: b). cbn [after_break].
        change (10 =? 10) with true. rewrite andb_true_r.
        destruct (c =? 13); [reflexivity|].
        rewrite splitlines_from_cons. change (islinebreak 10) with true.
        cbn iota. assert (after_break 10 b = b) as -> by (by destruct b).
        reflexivity.
      * change ((c' :: a) ++ LF ++ b) with (c' :: (a ++ LF ++ b)).
        cbn [after_break]. destruct ((c =? 13) && (c' =? 10)).
        -- apply (IH (length a)); [subst n; simpl; lia|done].
        -- apply (IH (length (c' :: a)) ltac:(subst n; simpl; lia) (c' :: a)).
           done.
    + apply (IH (length a)); [subst n; simpl; lia|done].
Qed.

Lemma parse_after_newline a b :
  parse_key_values (a ++ LF ++ b)
  = foldl parse_line (parse_key_values a) (splitlines b).
Proof. apply parse_lines_after_newline. Qed.

Lemma dict_get_parse_lines lines d k :
  dict_get (foldl parse_line d lines) k
  = match dict_get (foldl parse_line [] lines) k with
    | Some v => Some v
    | None => dict_get d k
    end.
Proof.
  induction lines as [|l lines IH] using rev_ind; [done|].
  rewrite !foldl_snoc, !parse_line_spec. destruct (ignored l); [done|].
  rewrite !dict_get_set. by case_decide.
Qed.

(** X3. Two texts put one after the other on separate lines are read as
    the first mapping updated by the second: a key of the second text has
    the value of the second text, any other key the value of the first. *)
Theorem parse_concatenation a b k :
  dict_get (parse_key_values (a ++ LF ++ b)) k
  = match dict_get (parse_key_values b) k with
    | Some v => Some v
    | None => dict_get (parse_key_values a) k
    end.
Proof. rewrite parse_after_newline. apply dict_get_parse_lines. Qed.

Lemma parse_lines_join ls d :
  foldl parse_line d (splitlines (join LF ls))
  = foldl parse_line d (l ← ls; splitlines l).
Proof.
  revert d. induction ls as [|x ls IH]; intros d; [done|].
  destruct ls as [|y ls].
  - simpl. by rewrite app_nil_r.
  - change (join LF (x :: y :: ls)) with (x ++ LF ++ join LF (y :: ls)).
    unfold splitlines at 1. rewrite parse_lines_after_newline, IH.
    change (x :: y :: ls) with ([x] ++ (y :: ls)).
    rewrite bind_app, foldl_app. simpl. by rewrite app_nil_r.
Qed.

(** ** Extraction *)

Lemma pdf_text_spec pages : pdf_text pages = join LF (map page_text pages).
Proof.
  unfold pdf_text. f_equal.
  enough (∀ acc,
    foldl (λ acc page,
      acc ++ [match page with
              | Some t => if truthy t then t else []
              | None => []
              end]) acc pages = acc ++ map page_text pages) as H by apply H.
  induction pages as [|pg pages IH]; intros acc; simpl.
  - by rewrite app_nil_r.
  - rewrite IH, <-app_assoc. do 2 f_equal. by destruct pg as [[|]|].
Qed.

(** X4. From a buffer that the PDF library reads as [pages], the extraction
    gives one entry per page in page order, the empty string for a page
    without text, joined by newlines; unlike for DOCX, empty entries stay. *)
Theorem extract_pdf_pages {Buffer E : Type}
    (Document : option (Buffer → E + DocxDocument))
    (PyPDF2 : Buffer → E + list (option str))
    (unicode_lower : str → str) (file_buffer : Buffer) (extension : str)
    (pages : list (option str)) :
  lower unicode_lower extension = py "pdf" →
  PyPDF2 file_buffer = inr pages →
  extract_text Document (Some PyPDF2) unicode_lower file_buffer extension
  = Ok (join LF (map page_text pages)).
Proof.
  intros Hext Hp. unfold extract_text. rewrite Hext.
  rewrite decide_False by (by vm_compute). rewrite decide_True by done.
  by rewrite Hp, <-pdf_text_spec.
Qed.

Lemma extract_pdf_pages_witness :
  extract_text (Buffer := list (option str)) (E := unit) None (Some inr) id
    [Some (py "a: 1"); None; Some (py "b: 2")] (py "PDF")
  = Ok (py "a: 1" ++ LF ++ LF ++ py "b: 2").
Proof.
  rewrite (extract_pdf_pages (E := unit) None inr id
             [Some (py "a: 1"); None; Some (py "b: 2")] (py "PDF")
             [Some (py "a: 1"); None; Some (py "b: 2")]); reflexivity.
Defined.

Lemma join_nil_iff ls :
  Forall (λ l, l ≠ []) ls → join LF ls = [] ↔ ls = [].
Proof.
  intros H. split; [|by intros ->]. destruct ls as [|x ls]; [done|].
  apply Forall_cons in H as [Hx _]. destruct ls as [|y ls]; [done|].
  change (join LF (x :: y :: ls)) with (x ++ LF ++ join LF (y :: ls)).
  by intros [? _]%app_eq_nil.
Qed.

Lemma filter_nonempty_nil (ls : list str) :
  filter (λ s : str, s ≠ []) ls = [] ↔ ∀ l, l ∈ ls → l = [].
Proof.
  induction ls as [|x ls IH].
  - split; [by intros _ l ?%elem_of_nil|done].
  - rewrite filter_cons. destruct (decide (x ≠ [])) as [Hx|Hx].
    + split; [done|]. intros H. destruct Hx. apply H. left.
    + rewrite IH. apply dec_stable in Hx. subst x. split.
      * intros H l [->|Hl]%elem_of_cons; [done|by apply H].
      * intros H l Hl. apply H. by right.
Qed.

(** X5. The text extracted from a document is empty exactly when every
    body paragraph and every table cell has an empty text. *)
Theorem docx_text_empty d :
  docx_text d = []
  ↔ (∀ p, p ∈ doc_paragraphs d → text_at (doc_store d) p = [])
    ∧ (∀ c, c ∈ (t ← doc_tables d; r ← rows t; cells r) →
         cell_text (doc_store d) c = []).
Proof.
  rewrite docx_text_spec, join_nil_iff.
  2:{ apply Forall_forall. by intros l [? _]%list_elem_of_filter. }
  rewrite filter_nonempty_nil. unfold table_cells. split.
  - intros H. split.
    + intros p Hp. apply H, elem_of_app. left.
      apply list_elem_of_fmap. by exists p.
    + intros c Hc. apply H, elem_of_app. right.
      apply list_elem_of_fmap. by exists c.
  - intros [Hp Hc] l [Hl|Hl]%elem_of_app.
    + apply list_elem_of_fmap in Hl as (p & -> & Hin). by apply Hp.
    + apply list_elem_of_fmap in Hl as (c & -> & Hin). by apply Hc.
Qed.

(** ** From the extracted text to the mapping *)

Lemma splitlines_filter_nonempty (ls : list str) :
  (l ← filter (λ s : str, s ≠ []) ls; splitlines l) = (l ← ls; splitlines l).
Proof.
  induction ls as [|x ls IH]; [done|].
  rewrite filter_cons. destruct (decide (x ≠ [])) as [Hx|Hx].
  - change (x :: filter (λ s : str, s ≠ []) ls)
      with ([x] ++ filter (λ s : str, s ≠ []) ls).
    change (x :: ls) with ([x] ++ ls). by rewrite !bind_app, IH.
  - apply dec_stable in Hx. subst x. rewrite IH. done.
Qed.

Lemma bind_map {A B C} (f : A → B) (g : B → list C) (l : list A) :
  (y ← map f l; g y) = (x ← l; g (f x)).
Proof.
  induction l as [|x l IH]; [done|].
  change (map f (x :: l)) with ([f x] ++ map f l).
  change (x :: l) with ([x] ++ l). rewrite !bind_app, IH. done.
Qed.

Lemma parse_lines_cells st cs d :
  foldl parse_line d (l ← map (cell_text st) cs; splitlines l)
  = foldl parse_line d
      (p ← (c ← cs; cell_paragraphs c); splitlines (text_at st p)).
Proof.
  revert d. induction cs as [|c cs IH]; intros d; [done|].
  change (map (cell_text st) (c :: cs))
    with ([cell_text st c] ++ map (cell_text st) cs).
  change (c :: cs) with ([c] ++ cs).
  rewrite !bind_app, !foldl_app, IH. f_equal. simpl. rewrite !app_nil_r.
  unfold cell_text. by rewrite parse_lines_join, bind_map.
Qed.

(** X6. Reading the mapping off the text extracted from a document amounts
    to reading the lines of the paragraph texts one after the other: the
    body paragraphs first, then the paragraphs of the cells row by row. *)
Theorem parse_docx_text d :
  parse_key_values (docx_text d)
  = foldl parse_line []
      (p ← doc_paragraphs d ++ (c ← (t ← doc_tables d; r ← rows t; cells r);
                                cell_paragraphs c);
       splitlines (text_at (doc_store d) p)).
Proof.
  unfold parse_key_values. rewrite docx_text_spec, parse_lines_join.
  rewrite splitlines_filter_nonempty, !bind_app, !foldl_app.
  by rewrite parse_lines_cells, bind_map.
Qed.

(** X7. Reading the mapping off the text extracted from the pages of a PDF
    amounts to reading the lines of the pages one after the other. *)
Theorem parse_pdf_text pages :
  parse_key_values (pdf_text pages)
  = foldl parse_line [] (page ← pages; splitlines (page_text page)).
Proof.
  unfold parse_key_values. by rewrite pdf_text_spec, parse_lines_join, bind_map.
Qed.

(** ** Well-formed templates *)

Lemma subst_segment_idem values seg :
  subst_segment values (subst_segment values seg) = subst_segment values seg.
Proof.
  destruct seg as [s|k]; [done|]. simpl.
  destruct (dict_get values k) eqn:Hg; simpl; [done|by rewrite Hg].
Qed.

Lemma forallb_subst_segment_ok values segs :
  brace_free_dict values = true → forallb segment_ok segs = true →
  forallb segment_ok (map (subst_segment values) segs) = true.
Proof.
  intros Hv Hok. rewrite forallb_forall in Hok |- *. intros seg Hin.
  apply in_map_iff in Hin as (seg' & <- & Hin).
  apply subst_segment_ok; [done|by apply Hok].
Qed.







(** ** Filling, then extracting *)

Lemma text_at_fill_document d values p :
  text_at (doc_store (fill_document d values)) p
  = Nat.iter (visits p d) (replace_all values) (text_at (doc_store d) p).
Proof.
  unfold text_at. rewrite fill_document_lookup.
  destruct (doc_store d !! p) as [par|]; simpl.
  - apply text_iter_replace_in_paragraph.
  - symmetry. apply iter_fixed, replace_all_empty.
Qed.

Lemma filter_eq_absent (p : nat) (l : list nat) :
  p ∉ l → filter (λ i, i = p) l = [].
Proof.
  induction l as [|i l IH]; [done|]. intros H. rewrite filter_cons.
  rewrite decide_False by (intros ->; apply H; left).
  apply IH. intros Hin. apply H. by right.
Qed.

Lemma visits_NoDup d p :
  NoDup (reachable d) → p ∈ reachable d → visits p d = 1%nat.
Proof.
  unfold visits. generalize (reachable d). intros l.
  induction l as [|i l IH]; [by intros _ ?%elem_of_nil|].
  intros [Hi Hl]%NoDup_cons. rewrite filter_cons.
  destruct (decide (i = p)) as [->|Hne].
  - intros _. simpl. f_equal.
    by rewrite filter_eq_absent.
  - intros [->|Hp]%elem_of_cons; [done|]. by apply IH.
Qed.

(** With [set_text], filling and extracting commute when no paragraph object
    is listed twice. *)
Lemma docx_text_fill_document d values :
  NoDup (reachable d) →
  docx_text (fill_document d values)
  = join LF (filter (λ s, s ≠ [])
      (map (λ p, replace_all values (text_at (doc_store d) p))
         (doc_paragraphs d)
       ++ map (λ c, join LF
                 (map (λ p, replace_all values (text_at (doc_store d) p))
                    (cell_paragraphs c)))
            (t ← doc_tables d; r ← rows t; cells r))).
Proof.
  intros Hnd. rewrite docx_text_spec.
  assert (∀ p, p ∈ reachable d →
            text_at (doc_store (fill_document d values)) p
            = replace_all values (text_at (doc_store d) p)) as Hp.
  { intros p Hin. by rewrite text_at_fill_document, visits_NoDup. }
  do 2 f_equal.
  change (doc_paragraphs (fill_document d values)) with (doc_paragraphs d).
  change (doc_tables (fill_document d values)) with (doc_tables d).
  unfold table_cells. f_equal.
  - apply map_ext_in. intros p Hin. apply Hp, elem_of_app. left.
    by apply list_elem_of_In.
  - apply map_ext_in. intros c Hc. unfold cell_text. f_equal.
    apply map_ext_in. intros p Hin. apply Hp.
    apply elem_of_app. right. apply elem_of_app. right.
    apply list_elem_of_bind. exists c.
    split; by apply list_elem_of_In.
Qed.


(** ** Filling through the library: what is left alone, refused, extracted *)

Lemma visits_out_of_scope d p : ¬ in_scope d p → visits p d = 0%nat.
Proof.
  rewrite in_scope_reachable, visits_reachable. lia.
Qed.

(** X8. In the document of a filling that returned, a paragraph object that
    is not in scope, or whose text no key of the mapping changes, is the
    object it was, with the runs it had, however many times the traversal
    met it. *)
Theorem fill_leaves_alone {E} (assign : str → E + str) d values d' p par :
  Lib.fill_document assign d values = inr d' →
  doc_store d !! p = Some par →
  ¬ in_scope d p ∨ replace_all values (text par) = text par →
  doc_store d' !! p = Some par.
Proof.
  intros Hd' Hpar H.
  destruct (lib_fill_document_lookup assign _ _ _ p Hd') as [_ Hlook].
  rewrite Hpar in Hlook. destruct Hlook as (par' & Hpass & ->).
  f_equal. destruct H as [Hout|Hsame].
  - rewrite (visits_out_of_scope _ _ Hout) in Hpass. simpl in Hpass. congruence.
  - rewrite passes_at_unchanged in Hpass by done. congruence.
Qed.

Lemma fill_leaves_alone_witness :
  ∃ d',
    Lib.fill_document docx_assign
      (paragraph_and_cell (py "x{{k}}y") (py "no {{b}}"))
      [(py "k", py "a" ++ [13] ++ py "b")] = inr d'
    ∧ doc_store d' !! 1%nat = Some {| runs := [py "no {{b}}"] |}.
Proof.
  eexists. split; [reflexivity|].
  apply (fill_leaves_alone docx_assign
           (paragraph_and_cell (py "x{{k}}y") (py "no {{b}}"))
           [(py "k", py "a" ++ [13] ++ py "b")]).
  - reflexivity.
  - reflexivity.
  - right. reflexivity.
Defined.

(** X9. When the library refuses the new text of a paragraph in scope,
    filling raises an error of the library and returns no output, whatever
    the other paragraphs are. *)
Theorem fill_refused {Buffer E} (assign : str → E + str)
    (Document : Buffer → E + DocxDocument) (save : DocxDocument → E + Buffer)
    template_bytes d values p par e :
  Document template_bytes = inr d →
  in_scope d p → doc_store d !! p = Some par →
  replace_all values (text par) ≠ text par →
  assign (replace_all values (text par)) = inl e →
  ∃ e', Lib.fill_template_with_values assign (Some Document) save
          template_bytes values = Raise (LibraryError e').
Proof.
  intros Hd Hp%in_scope_reachable%visits_reachable Hpar Hne Hassign.
  unfold Lib.fill_template_with_values. rewrite Hd. simpl.
  destruct (Lib.fill_document assign d values) as [e'|d'] eqn:Hd'; simpl.
  { by exists e'. }
  exfalso.
  destruct (lib_fill_document_lookup assign _ _ _ p Hd') as [_ Hlook].
  rewrite Hpar in Hlook. destruct Hlook as (par' & Hpass & _).
  destruct (visits p d) as [|n]; [lia|]. simpl in Hpass.
  unfold Lib.replace_in_paragraph in Hpass.
  rewrite decide_False in Hpass by done.
  unfold Lib.set_text in Hpass. rewrite Hassign in Hpass. done.
Qed.

Lemma fill_refused_witness :
  ∃ e', Lib.fill_template_with_values docx_assign (Some inr) inr
          (paragraph_and_cell (py "ok {{k}}") (py "x{{k}}y"))
          [(py "k", py "a" ++ [31] ++ py "b")]
        = Raise (LibraryError e').
Proof.
  apply (fill_refused docx_assign inr inr
           (paragraph_and_cell (py "ok {{k}}") (py "x{{k}}y"))
           (paragraph_and_cell (py "ok {{k}}") (py "x{{k}}y"))
           [(py "k", py "a" ++ [31] ++ py "b")] 1%nat
           {| runs := [py "x{{k}}y"] |} NotXMLCompatible).
  - reflexivity.
  - apply in_scope_reachable, list_elem_of_In. vm_compute. tauto.
  - reflexivity.
  - vm_compute. discriminate.
  - reflexivity.
Defined.

(** X10. In the document of a filling that returned, a paragraph in scope
    whose text is made of brace-free literal pieces and placeholders of
    brace-free keys, filled from a mapping free of braces, reads as the text
    in which every placeholder of a key of the mapping is the value of the
    key, all at once, when the library stores that text as it is assigned:
    a value is not searched again, and this holds however many times the
    traversal meets the paragraph. *)
Theorem fill_simultaneous {E} (assign : str → E + str) d values d' p par segs :
  Lib.fill_document assign d values = inr d' →
  in_scope d p → doc_store d !! p = Some par →
  text par = render segs → forallb segment_ok segs = true →
  brace_free_dict values = true →
  (render (map (subst_segment values) segs) ≠ render segs →
   assign (render (map (subst_segment values) segs))
   = inr (render (map (subst_segment values) segs))) →
  ∃ par',
    doc_store d' !! p = Some par'
    ∧ text par' = render (map (subst_segment values) segs).
Proof.
  intros Hd' Hp%in_scope_reachable%visits_reachable Hpar Ht Hok Hv Hassign.
  destruct (lib_fill_document_lookup assign _ _ _ p Hd') as [_ Hlook].
  rewrite Hpar in Hlook. destruct Hlook as (par' & Hpass & Hpar').
  exists par'. split; [done|].
  destruct (visits p d) as [|n]; [lia|]. simpl in Hpass.
  assert (replace_all values (text par)
          = render (map (subst_segment values) segs)) as Hnew.
  { rewrite Ht. by apply replace_all_render. }
  assert (replace_all values (render (map (subst_segment values) segs))
          = render (map (subst_segment values) segs)) as Hfix.
  { rewrite replace_all_render; [|done|by apply forallb_subst_segment_ok].
    f_equal. rewrite map_map. apply map_ext. intros seg.
    apply subst_segment_idem. }
  unfold Lib.replace_in_paragraph in Hpass. case_decide as Hsame.
  - simpl in Hpass. rewrite passes_at_unchanged in Hpass by done.
    injection Hpass as <-. congruence.
  - unfold Lib.set_text in Hpass. rewrite Hnew, Hassign in Hpass by congruence.
    simpl in Hpass. rewrite passes_at_unchanged in Hpass.
    + injection Hpass as <-. unfold text. simpl. apply app_nil_r.
    + unfold text. simpl. rewrite app_nil_r. exact Hfix.
Qed.

Lemma fill_simultaneous_witness :
  ∃ d' par',
    Lib.fill_document docx_assign
      (merged_cell_document (py "{{a}} and {{b}} and {{c}}"))
      [(py "b", py "a"); (py "a", py "b")] = inr d'
    ∧ doc_store d' !! 0%nat = Some par'
    ∧ text par' = py "b and a and {{c}}".
Proof.
  destruct (fill_simultaneous docx_assign
              (merged_cell_document (py "{{a}} and {{b}} and {{c}}"))
              [(py "b", py "a"); (py "a", py "b")]
              (merged_cell_document (py "b and a and {{c}}")) 0%nat
              {| runs := [py "{{a}} and {{b}} and {{c}}"] |}
              [Ph (py "a"); Lit (py " and "); Ph (py "b"); Lit (py " and ");
               Ph (py "c")]) as (par' & Hpar' & Htext).
  - reflexivity.
  - apply in_scope_reachable, list_elem_of_In. vm_compute. tauto.
  - reflexivity.
  - reflexivity.
  - reflexivity.
  - reflexivity.
  - intros _. reflexivity.
  - exists (merged_cell_document (py "b and a and {{c}}")), par'.
    split; [reflexivity|]. split; [exact Hpar'|]. rewrite Htext. reflexivity.
Defined.

(** X12. When no paragraph object is listed twice and the library stores
    the new text of every paragraph in scope as it is assigned, filling
    returns a document, and the text extracted from it is the text
    extracted from the template with every body paragraph and every
    paragraph of a cell filled; a paragraph or a cell that filling empties
    is dropped. *)
Theorem extract_after_fill {E} (assign : str → E + str) d values :
  NoDup (reachable d) →
  (∀ p par, in_scope d p → doc_store d !! p = Some par →
     replace_all values (text par) ≠ text par →
     assign (replace_all values (text par))
     = inr (replace_all values (text par))) →
  ∃ d',
    Lib.fill_document assign d values = inr d'
    ∧ docx_text d'
      = join LF (filter (λ s, s ≠ [])
          (map (λ p, replace_all values (text_at (doc_store d) p))
             (doc_paragraphs d)
           ++ map (λ c, join LF
                     (map (λ p, replace_all values (text_at (doc_store d) p))
                        (cell_paragraphs c)))
                (t ← doc_tables d; r ← rows t; cells r))).
Proof.
  intros Hnd Hassign. exists (fill_document d values). split.
  - apply lib_fill_document_stored; [done|].
    intros p par Hp. apply Hassign. by apply in_scope_reachable.
  - by apply docx_text_fill_document.
Qed.

Lemma extract_after_fill_witness :
  ∃ d',
    Lib.fill_document docx_assign
      (paragraph_and_cell (py "{{a}}") (py "b: {{a}}")) [(py "a", py "1")]
    = inr d'
    ∧ docx_text d' = py "1" ++ LF ++ py "b: 1".
Proof.
  destruct (extract_after_fill docx_assign
              (paragraph_and_cell (py "{{a}}") (py "b: {{a}}"))
              [(py "a", py "1")]) as (d' & Hd' & Htext).
  - apply NoDup_ListNoDup. vm_compute.
    repeat constructor; simpl; intuition discriminate.
  - intros p par Hp%in_scope_reachable Hpar.
    apply list_elem_of_In in Hp. vm_compute in Hp.
    destruct Hp as [<-|[<-|[]]]; vm_compute in Hpar; injection Hpar as <-;
      reflexivity.
  - exists d'. split; [done|]. rewrite Htext. reflexivity.
Defined.

(** ** The page *)

Lemma truthy_dict_nonempty (d : dict) : truthy_dict d = true ↔ d ≠ [].
Proof. by destruct d. Qed.

Section PageProperties.
Context {Buffer E : Type}.

Variable Document : option (Buffer → E + DocxDocument).
Variable PyPDF2 : option (Buffer → E + list (option str)).
Variable save : DocxDocument → E + Buffer.
Variable unicode_lower : str → str.
Variable unicode_upper : str → str.
Variable suffix : str → str.
Variable str_of_error : E → str.

Local Abbreviation shown :=
  (page Document PyPDF2 save unicode_lower unicode_upper suffix str_of_error).
Local Abbreviation extension := (extension_of unicode_lower suffix).
Local Abbreviation extract := (extract_text Document PyPDF2 unicode_lower).
Local Abbreviation fill := (fill_template_with_values Document save).
Local Abbreviation notice := (files_notice unicode_lower unicode_upper suffix).

(** The text the mapping is read from: the extracted text, or the empty
    text when the extraction fails. *)
Local Abbreviation base_text base_upload :=
  (read_base Document PyPDF2 unicode_lower str_of_error
     (upload_value base_upload) (extension base_upload)).2.

Lemma read_base_widgets base_bytes_raw base_extension w :
  w ∈ (read_base Document PyPDF2 unicode_lower str_of_error
         base_bytes_raw base_extension).1 →
  ∃ body, w = st_error body.
Proof.
  unfold read_base. destruct (extract _ _) as [t|[msg|msg|e]]; simpl.
  - by intros ?%elem_of_nil.
  - intros ->%list_elem_of_singleton. eauto.
  - intros ->%list_elem_of_singleton. eauto.
  - intros ->%list_elem_of_singleton. eauto.
Qed.

Lemma fill_step_widgets template_bytes_raw template_extension values w :
  w ∈ (fill_step Document save str_of_error
         template_bytes_raw template_extension values).1 →
  ∃ body, w = st_error body.
Proof.
  unfold fill_step. destruct (_ && _); [|by intros ?%elem_of_nil].
  destruct (fill _ _) as [t|[msg|msg|e]]; simpl.
  - by intros ?%elem_of_nil.
  - intros ->%list_elem_of_singleton. eauto.
  - intros ->%list_elem_of_singleton. eauto.
  - intros ->%list_elem_of_singleton. eauto.
Qed.

Lemma fill_step_result template_bytes_raw template_extension values data :
  (fill_step Document save str_of_error
     template_bytes_raw template_extension values).2 = Some data
  ↔ template_extension = py "docx" ∧ values ≠ []
    ∧ fill template_bytes_raw values = Ok data.
Proof.
  unfold fill_step. destruct (truthy_dict values) eqn:Hv; simpl.
  - apply truthy_dict_nonempty in Hv. case_bool_decide as Hext; simpl.
    + destruct (fill _ _) as [t|[msg|msg|e]]; simpl.
      * split; [by intros [= ->]|by intros (_ & _ & [= ->])].
      * split; [done|by intros (_ & _ & ?)].
      * split; [done|by intros (_ & _ & ?)].
      * split; [done|by intros (_ & _ & ?)].
    + split; [done|by intros [? _]].
  - apply not_true_iff_false in Hv. rewrite truthy_dict_nonempty in Hv.
    split; [done|]. intros (_ & ? & _). by destruct Hv.
Qed.

Lemma page_unfold template_upload base_upload :
  shown (Some template_upload) (Some base_upload)
  = [st_info (notice template_upload base_upload)]
    ++ (read_base Document PyPDF2 unicode_lower str_of_error
          (upload_value base_upload) (extension base_upload)).1
    ++ preview (base_text base_upload)
    ++ (if negb (truthy_dict (parse_key_values (base_text base_upload)))
        then [st_warning no_pairs_warning] else [])
    ++ (fill_step Document save str_of_error (upload_value template_upload)
          (extension template_upload)
          (parse_key_values (base_text base_upload))).1
    ++ (if bool_decide (extension template_upload = py "docx") then []
        else [st_info pdf_template_notice])
    ++ download
         (fill_step Document save str_of_error (upload_value template_upload)
            (extension template_upload)
            (parse_key_values (base_text base_upload))).2.
Proof.
  unfold page. destruct (read_base _ _ _ _ _ _) as [rw bt]. simpl.
  by destruct (fill_step _ _ _ _ _ _).
Qed.

(** X13. A download is offered exactly when the template has the extension
    docx, the text of the base document yields at least one pair and
    filling the template with these pairs succeeds; what is offered is the
    buffer that filling returned, under the fixed name and type. *)
Theorem page_download template_upload base_upload label data file_name mime :
  st_download_button label data file_name mime
    ∈ shown (Some template_upload) (Some base_upload)
  ↔ label = py "Baixar documento preenchido"
    ∧ file_name = py "template-preenchido.docx"
    ∧ mime = py "application/vnd.openxmlformats-officedocument.wordprocessingml.document"
    ∧ extension template_upload = py "docx"
    ∧ parse_key_values (base_text base_upload) ≠ []
    ∧ fill (upload_value template_upload)
        (parse_key_values (base_text base_upload)) = Ok data.
Proof.
  rewrite page_unfold, <-fill_step_result.
  rewrite !elem_of_app, list_elem_of_singleton. split.
  - intros [H|[H|[H|[H|[H|[H|H]]]]]].
    + done.
    + by apply read_base_widgets in H as [? ?].
    + unfold preview in H. destruct (truthy _).
      * apply list_elem_of_In in H. simpl in H. intuition discriminate.
      * by apply elem_of_nil in H.
    + destruct (negb _).
      * by apply list_elem_of_singleton in H.
      * by apply elem_of_nil in H.
    + by apply fill_step_widgets in H as [? ?].
    + destruct (bool_decide _).
      * by apply elem_of_nil in H.
      * by apply list_elem_of_singleton in H.
    + destruct (fill_step _ _ _ _ _ _).2 as [out|]; simpl in H.
      * apply list_elem_of_In in H. simpl in H.
        destruct H as [H|[H|[]]]; [done|]. by injection H as <- <- <- <-.
      * by apply elem_of_nil in H.
  - intros (-> & -> & -> & ->). do 6 right. simpl. right. left.
Qed.

(** X14. When the base document cannot be read, for whatever reason, the
    page shows the error, then the warning that no pair was found, and
    offers no download; the template is not opened. *)
Theorem page_base_unreadable template_upload base_upload exc :
  extract (upload_value base_upload) (extension base_upload) = Raise exc →
  shown (Some template_upload) (Some base_upload)
  = [st_info (notice template_upload base_upload);
     st_error
       match exc with
       | ImportError msg =>
           py "Nao foi possivel ler o documento base: " ++ of_string msg
           ++ py ". " ++ install_hint
       | _ => py "Erro ao ler o documento base: " ++ str_of_exn str_of_error exc
       end;
     st_warning no_pairs_warning]
    ++ (if bool_decide (extension template_upload = py "docx") then []
        else [st_info pdf_template_notice]).
Proof.
  intros H. rewrite page_unfold. unfold read_base, fill_step. rewrite H.
  destruct exc as [msg|msg|e]; simpl;
    by destruct (bool_decide (extension template_upload = py "docx")).
Qed.

(** X15. The content of the template is looked at only when its extension
    is docx and the base document gave at least one pair: otherwise the
    page is the same for any other content under the same name. *)
Theorem page_template_not_read template_upload base_upload other :
  extension template_upload ≠ py "docx"
  ∨ parse_key_values (base_text base_upload) = [] →
  shown (Some template_upload) (Some base_upload)
  = shown (Some {| upload_name := upload_name template_upload;
                   upload_value := other |}) (Some base_upload).
Proof.
  intros H. rewrite !page_unfold. unfold fill_step, files_notice, extension_of.
  simpl. destruct H as [H|H].
  - rewrite (bool_decide_eq_false_2 _ H). by rewrite !andb_false_r.
  - unfold extension_of in H. simpl in H. by rewrite H.
Qed.


End PageProperties.

Lemma page_base_unreadable_witness :
  example_page
    (Some {| upload_name := py "letter.docx";
             upload_value := docx_file (plain_document [py "{{name}}"]) |})
    (Some {| upload_name := py "data.pdf"; upload_value := broken_file |})
  = [st_info (py "Template: **letter.docx** (DOCX) | Base: **data.pdf** (PDF)");
     st_error (py "Erro ao ler o documento base: unreadable");
     st_warning no_pairs_warning].
Proof.
  unfold example_page.
  rewrite (page_base_unreadable _ _ _ _ _ _ _ _ _ (LibraryError tt));
    reflexivity.
Defined.

Lemma page_template_not_read_witness :
  example_page
    (Some {| upload_name := py "letter.pdf"; upload_value := broken_file |})
    (Some {| upload_name := py "data.pdf";
             upload_value := pdf_file [Some (py "name: Ana")] |})
  = example_page
      (Some {| upload_name := py "letter.pdf";
               upload_value := pdf_file [Some (py "{{name}}")] |})
      (Some {| upload_name := py "data.pdf";
               upload_value := pdf_file [Some (py "name: Ana")] |}).
Proof.
  unfold example_page.
  apply (page_template_not_read _ _ _ _ _ _ _
           {| upload_name := py "letter.pdf"; upload_value := broken_file |}).
  left. by vm_compute.
Defined.

